(** * Dilithium signer: key generation, signing and verification

    A shallow embedding of [include/dilithium.hpp] (namespace [dilithium]):
    the three routines [keygen], [sign] and [verify], written over the
    interface of the helper namespaces they call ([sampling], [polyvec],
    [ntt], [bit_packing], [shake256]), followed by the properties of the
    signer that the natural-language description of the library states. *)

From Stdlib Require Import ZArith List Bool Lia String.
Import ListNotations.
Open Scope Z_scope.

(** ** Machine integers and byte strings *)

(** [uint8_t], [uint16_t], [uint32_t] and [size_t] values are integers of [Z];
    the wrap-around of the fixed-width types is written out where the code
    computes with them. *)
Definition byte := Z.
Definition bytes := list byte.

Definition u16 (x : Z) : Z := x mod 2 ^ 16.
Definition u32 (x : Z) : Z := x mod 2 ^ 32.

(** [std::bit_width]: the number of bits needed to write [x], 0 for 0. *)
Definition bit_width (x : Z) : Z := if x =? 0 then 0 else Z.log2 x + 1.

(** [s.subspan<off, len>()] *)
Definition subspan (off len : Z) (s : bytes) : bytes :=
  firstn (Z.to_nat len) (skipn (Z.to_nat off) s).

(** ** The field *)

(** Modelled from the spec: [field.hpp] is not among the sources.  A field
    element is an integer in [[0, Q)] with Q = 8380417; building one from a
    32-bit value gives the canonical representative, and field elements
    compare as these integers. *)
Definition Q : Z := 8380417.
Definition zq_t := Z.
Definition zq_of (a : Z) : zq_t := a mod Q.

(** [ntt::N] *)
Definition N : Z := 256.

(** ** Parameters *)

(** The template parameters of the three routines. *)
Record params := mk_params {
  k : Z; l : Z; d : Z; η : Z; γ1 : Z; γ2 : Z; τ : Z; β : Z; ω : Z }.

Definition dilithium2 : params := mk_params 4 4 13 2 (2 ^ 17) ((Q - 1) / 88) 39 78 80.
Definition dilithium3 : params := mk_params 6 5 13 4 (2 ^ 19) ((Q - 1) / 32) 49 196 55.
Definition dilithium5 : params := mk_params 8 7 13 2 (2 ^ 19) ((Q - 1) / 32) 60 120 75.

Definition params_eqb (p q : params) : bool :=
  (k p =? k q) && (l p =? l q) && (d p =? d q) && (η p =? η q) &&
  (γ1 p =? γ1 q) && (γ2 p =? γ2 q) && (τ p =? τ q) && (β p =? β q) &&
  (ω p =? ω q).

(** Modelled from the spec: [params.hpp] is not among the sources.  The
    caller selects one of the three standardized tuples (modes 2, 3 and 5);
    each routine checks the components it is instantiated with. *)
Definition check_signing_params (p : params) : bool :=
  params_eqb p dilithium2 || params_eqb p dilithium3 || params_eqb p dilithium5.

Definition check_keygen_params (p : params) : bool :=
  let same q := (k p =? k q) && (l p =? l q) && (d p =? d q) && (η p =? η q) in
  same dilithium2 || same dilithium3 || same dilithium5.

Definition check_verify_params (p : params) : bool :=
  let same q :=
    (k p =? k q) && (l p =? l q) && (d p =? d q) && (γ1 p =? γ1 q) &&
    (γ2 p =? γ2 q) && (τ p =? τ q) && (β p =? β q) && (ω p =? ω q) in
  same dilithium2 || same dilithium3 || same dilithium5.

(** Modelled from the spec: [utils.hpp] is not among the sources.  The byte
    lengths are the ones the comments above [keygen] and [sign] give. *)
Definition pub_key_len (k d : Z) : Z := 32 + k * (bit_width Q - d) * 32.

Definition sec_key_len (k l η d : Z) : Z :=
  let ebw := bit_width (u32 (2 * η)) in
  96 + 32 * (k * ebw + l * ebw + k * d).

Definition sig_len (k l γ1 ω : Z) : Z :=
  32 + 32 * l * bit_width γ1 + (ω + k).

(** ** The helper routines *)

(** The routines of [sampling], [polyvec], [ntt] and [bit_packing] that the
    signer calls, and the SHAKE256 function behind the hasher.  Template
    arguments come first, in the order of the call; a routine that fills an
    output array or span returns what it writes.  Vectors of polynomials are
    flat arrays of field elements, as in the code.

    [generateRandomBinaryString] and [xorBinaryStrings] are the two routines
    [keygen] calls on its secret vectors before packing them; the generator
    draws from a source of randomness, here the type [entropy]. *)
Class Primitives := {
  shake256_xof : bytes -> nat -> byte;
  expand_a : Z -> Z -> bytes -> list zq_t;
  expand_s : Z -> Z -> Z -> bytes -> list zq_t;
  expand_mask : Z -> Z -> bytes -> Z -> list zq_t;
  sample_in_ball : Z -> bytes -> list zq_t;
  ntt_ntt : list zq_t -> list zq_t;
  polyvec_ntt : Z -> list zq_t -> list zq_t;
  polyvec_intt : Z -> list zq_t -> list zq_t;
  matrix_multiply : Z -> Z -> Z -> Z -> list zq_t -> list zq_t -> list zq_t;
  add_to : Z -> list zq_t -> list zq_t -> list zq_t;
  neg : Z -> list zq_t -> list zq_t;
  shl : Z -> Z -> list zq_t -> list zq_t;
  sub_from_x : Z -> Z -> list zq_t -> list zq_t;
  mul_by_poly : Z -> list zq_t -> list zq_t -> list zq_t;
  power2round : Z -> Z -> list zq_t -> list zq_t * list zq_t;
  highbits : Z -> Z -> list zq_t -> list zq_t;
  lowbits : Z -> Z -> list zq_t -> list zq_t;
  make_hint : Z -> Z -> list zq_t -> list zq_t -> list zq_t;
  use_hint : Z -> Z -> list zq_t -> list zq_t -> list zq_t;
  infinity_norm : Z -> list zq_t -> zq_t;
  count_1s : Z -> list zq_t -> Z;
  encode : Z -> Z -> list zq_t -> bytes;
  decode : Z -> Z -> bytes -> list zq_t;
  encode_hint_bits : Z -> Z -> list zq_t -> bytes;
  decode_hint_bits : Z -> Z -> bytes -> bool * list zq_t;
  entropy : Type;
  generateRandomBinaryString : Z -> entropy -> string;
  xorBinaryStrings : string -> list zq_t -> list zq_t
}.

Section Signer.
Context {P : Primitives}.

(** ** The hasher *)

(** Modelled from the spec: [shake256::shake256_t] is not among the sources.
    The hasher absorbs bytes (repeatedly, before it is finalized), is
    finalized, and is then squeezed for any number of bytes; [reset] brings it
    back to its initial state.  The output stream of a message is
    [shake256_xof msg 0, shake256_xof msg 1, ...]. *)
Record shake256_t := mk_shake256 {
  absorbed : bytes; finalized : bool; squeezed : nat }.

Definition shake256_new : shake256_t := mk_shake256 [] false 0.

Definition absorb (data : bytes) (hs : shake256_t) : shake256_t :=
  if finalized hs then hs
  else mk_shake256 (absorbed hs ++ data) false (squeezed hs).

Definition finalize (hs : shake256_t) : shake256_t :=
  mk_shake256 (absorbed hs) true (squeezed hs).

Definition squeeze (n : nat) (hs : shake256_t) : bytes * shake256_t :=
  (map (shake256_xof (absorbed hs)) (seq (squeezed hs) n),
   mk_shake256 (absorbed hs) (finalized hs) (squeezed hs + n)).

Definition reset (hs : shake256_t) : shake256_t := shake256_new.

(** SHAKE256(msg, n): the first [n] bytes of the stream of [msg]. *)
Definition shake256 (msg : bytes) (n : nat) : bytes :=
  map (shake256_xof msg) (seq 0 n).

(** ** Key generation *)

(** [keygen<k, l, d, η>(seed, pubkey, seckey)].  The two output spans are
    returned as the concatenation of the pieces written into them.  [rnd] is
    the randomness [generateRandomBinaryString] draws from. *)
Definition keygen (p : params) (rnd : entropy) (seed : bytes) : bytes * bytes :=
  let hasher := shake256_new in
  let hasher := absorb seed hasher in
  let hasher := finalize hasher in
  let '(seed_hash, hasher) := squeeze 128 hasher in
  let rho := subspan 0 32 seed_hash in
  let rho_prime := subspan 32 64 seed_hash in
  let key := subspan (32 + 64) 32 seed_hash in
  let A := expand_a (k p) (l p) rho in
  let s1 := expand_s (η p) (l p) 0 rho_prime in
  let s2 := expand_s (η p) (k p) (l p) rho_prime in
  let s1_prime := polyvec_ntt (l p) s1 in
  let t := matrix_multiply (k p) (l p) (l p) 1 A s1_prime in
  let t := polyvec_intt (k p) t in
  let t := add_to (k p) s2 t in
  let '(t1, t0) := power2round (k p) (d p) t in
  let t1_bw := bit_width Q - d p in
  (* public key *)
  let pubkey := rho ++ encode (k p) t1_bw t1 in
  (* secret key *)
  let hasher := reset hasher in
  let hasher := absorb pubkey hasher in
  let hasher := finalize hasher in
  let '(tr, hasher) := squeeze 32 hasher in
  let eta_bw := bit_width (u32 (2 * η p)) in
  let s1 := sub_from_x (l p) (η p) s1 in
  let s2 := sub_from_x (k p) (η p) s2 in
  let MaskStr := generateRandomBinaryString (η p) rnd in
  let xorResult1 := xorBinaryStrings MaskStr s1 in
  let xorResult2 := xorBinaryStrings MaskStr s2 in
  let s1 := xorResult1 in
  let s2 := xorResult2 in
  let t0_rng := u32 (Z.shiftl 1 (d p - 1)) in
  let t0 := sub_from_x (k p) t0_rng t0 in
  let seckey :=
    rho ++ key ++ tr ++ encode (l p) eta_bw s1 ++ encode (k p) eta_bw s2
        ++ encode (k p) (d p) t0 in
  (pubkey, seckey).

(** The values [keygen] computes on the way, for the statements below. *)
Definition keygen_seed_hash (seed : bytes) : bytes := shake256 seed 128.
Definition keygen_rho (seed : bytes) : bytes := subspan 0 32 (keygen_seed_hash seed).
Definition keygen_rho_prime (seed : bytes) : bytes := subspan 32 64 (keygen_seed_hash seed).
Definition keygen_key (seed : bytes) : bytes := subspan 96 32 (keygen_seed_hash seed).
Definition keygen_s1 (p : params) (seed : bytes) : list zq_t :=
  expand_s (η p) (l p) 0 (keygen_rho_prime seed).
Definition keygen_s2 (p : params) (seed : bytes) : list zq_t :=
  expand_s (η p) (k p) (l p) (keygen_rho_prime seed).
Definition keygen_t (p : params) (seed : bytes) : list zq_t :=
  add_to (k p) (keygen_s2 p seed)
    (polyvec_intt (k p)
       (matrix_multiply (k p) (l p) (l p) 1
          (expand_a (k p) (l p) (keygen_rho seed))
          (polyvec_ntt (l p) (keygen_s1 p seed)))).
Definition keygen_t1 (p : params) (seed : bytes) : list zq_t :=
  fst (power2round (k p) (d p) (keygen_t p seed)).
Definition keygen_t0 (p : params) (seed : bytes) : list zq_t :=
  snd (power2round (k p) (d p) (keygen_t p seed)).
Definition keygen_tr (p : params) (seed : bytes) : bytes :=
  shake256 (keygen_rho seed ++ encode (k p) (bit_width Q - d p) (keygen_t1 p seed)) 32.

(** ** Signing *)

(** What [sign] computes once, before its loop. *)
Record sign_ctx := mk_sign_ctx {
  cx_A : list zq_t; cx_mu : bytes; cx_rho_prime : bytes;
  cx_s1 : list zq_t; cx_s2 : list zq_t; cx_t0 : list zq_t }.

(** The variables that live across the iterations of the loop. *)
Record sign_state := mk_sign_state {
  hasher : shake256_t; has_signed : bool; kappa : Z;
  z : list zq_t; h : list zq_t; hash_out : bytes }.

(** The arrays one iteration computes: the candidate [(hash_out, z, h)] and
    the vectors whose norms decide on it. *)
Record candidate := mk_candidate {
  cd_hasher : shake256_t; cd_hash_out : bytes; cd_z : list zq_t;
  cd_r0 : list zq_t; cd_h1 : list zq_t; cd_h : list zq_t }.

Definition sign_prepare (p : params) (randomized : bool)
    (seckey msg seed : bytes) : sign_ctx * shake256_t :=
  let t0_rng := u32 (Z.shiftl 1 (d p - 1)) in
  let eta_bw := bit_width (u32 (2 * η p)) in
  let s1_len := l p * eta_bw * 32 in
  let s2_len := k p * eta_bw * 32 in
  let skoff0 := 0 in
  let skoff1 := skoff0 + 32 in
  let skoff2 := skoff1 + 32 in
  let skoff3 := skoff2 + 32 in
  let skoff4 := skoff3 + s1_len in
  let skoff5 := skoff4 + s2_len in
  let rho := subspan skoff0 (skoff1 - skoff0) seckey in
  let key := subspan skoff1 (skoff2 - skoff1) seckey in
  let tr := subspan skoff2 (skoff3 - skoff2) seckey in
  let A := expand_a (k p) (l p) rho in
  let hasher := shake256_new in
  let hasher := absorb tr hasher in
  let hasher := absorb msg hasher in
  let hasher := finalize hasher in
  let '(mu, hasher) := squeeze 64 hasher in
  let '(rho_prime, hasher) :=
    if randomized then (seed, hasher)
    else
      let crh_in := key ++ mu in
      let hasher := reset hasher in
      let hasher := absorb crh_in hasher in
      let hasher := finalize hasher in
      squeeze 64 hasher in
  let s1 := decode (l p) eta_bw (subspan skoff3 (skoff4 - skoff3) seckey) in
  let s2 := decode (k p) eta_bw (subspan skoff4 (skoff5 - skoff4) seckey) in
  let t0 :=
    decode (k p) (d p)
      (subspan skoff5 (sec_key_len (k p) (l p) (η p) (d p) - skoff5) seckey) in
  let s1 := sub_from_x (l p) (η p) s1 in
  let s2 := sub_from_x (k p) (η p) s2 in
  let t0 := sub_from_x (k p) t0_rng t0 in
  let s1 := polyvec_ntt (l p) s1 in
  let s2 := polyvec_ntt (k p) s2 in
  let t0 := polyvec_ntt (k p) t0 in
  (mk_sign_ctx A mu rho_prime s1 s2 t0, hasher).

(** The body of the loop up to [make_hint] (lines 233-300). *)
Definition sign_candidate (p : params) (cx : sign_ctx) (st : sign_state) : candidate :=
  let y := expand_mask (γ1 p) (l p) (cx_rho_prime cx) (kappa st) in
  let y_prime := y in
  let y_prime := polyvec_ntt (l p) y_prime in
  let w := matrix_multiply (k p) (l p) (l p) 1 (cx_A cx) y_prime in
  let w := polyvec_intt (k p) w in
  let α := u32 (Z.shiftl (γ2 p) 1) in
  let m := (Q - 1) / α in
  let w1bw := bit_width (u32 (m - 1)) in
  let w1 := highbits (k p) α w in
  let hash_in := cx_mu cx ++ encode (k p) w1bw w1 in
  let hasher := reset (hasher st) in
  let hasher := absorb hash_in hasher in
  let hasher := finalize hasher in
  let '(hash_out, hasher) := squeeze 32 hasher in
  let c := sample_in_ball (τ p) hash_out in
  let c := ntt_ntt c in
  let z := mul_by_poly (l p) c (cx_s1 cx) in
  let z := polyvec_intt (l p) z in
  let z := add_to (l p) y z in
  let r1 := mul_by_poly (k p) c (cx_s2 cx) in
  let r1 := polyvec_intt (k p) r1 in
  let r1 := neg (k p) r1 in
  let r1 := add_to (k p) w r1 in
  let r0 := lowbits (k p) α r1 in
  let h0 := mul_by_poly (k p) c (cx_t0 cx) in
  let h0 := polyvec_intt (k p) h0 in
  let h1 := h0 in
  let h0 := neg (k p) h0 in
  let r1 := add_to (k p) h1 r1 in
  let h := make_hint (k p) α h0 r1 in
  mk_candidate hasher hash_out z r0 h1 h.

(** One iteration of [while (!has_signed)]. *)
Definition sign_body (p : params) (cx : sign_ctx) (st : sign_state) : sign_state :=
  let cd := sign_candidate p cx st in
  let z_norm := infinity_norm (l p) (cd_z cd) in
  let r0_norm := infinity_norm (k p) (cd_r0 cd) in
  let bound0 := zq_of (u32 (γ1 p - β p)) in
  let bound1 := zq_of (u32 (γ2 p - β p)) in
  let flg0 := bound0 <=? z_norm in
  let flg1 := bound1 <=? r0_norm in
  let flg2 := flg0 || flg1 in
  let has_signed := negb flg2 in
  let ct0_norm := infinity_norm (k p) (cd_h1 cd) in
  let count_1 := count_1s (k p) (cd_h cd) in
  let bound2 := zq_of (γ2 p) in
  let flg3 := bound2 <=? ct0_norm in
  let flg4 := ω p <? count_1 in
  let flg5 := flg3 || flg4 in
  let has_signed := has_signed && negb flg5 in
  let kappa := u16 (kappa st + u16 (l p)) in
  mk_sign_state (cd_hasher cd) has_signed kappa (cd_z cd) (cd_h cd) (cd_hash_out cd).

(** The loop.  [fuel] bounds the number of iterations; [None] says that the
    bound was reached with no candidate accepted. *)
Fixpoint sign_loop (p : params) (cx : sign_ctx) (fuel : nat) (st : sign_state)
    : option sign_state :=
  if has_signed st then Some st
  else match fuel with
       | O => None
       | S fuel => sign_loop p cx fuel (sign_body p cx st)
       end.

Definition sign_init (p : params) (hs : shake256_t) : sign_state :=
  mk_sign_state hs false 0
    (repeat 0 (Z.to_nat (l p * N))) (repeat 0 (Z.to_nat (k p * N))) (repeat 0 32%nat).

(** Serialization of the accepted candidate (lines 315-324). *)
Definition sign_serialize (p : params) (st : sign_state) : bytes :=
  let gamma1_bw := bit_width (γ1 p) in
  let z := sub_from_x (l p) (γ1 p) (z st) in
  hash_out st ++ encode (l p) gamma1_bw z ++ encode_hint_bits (k p) (ω p) (h st).

(** [sign<k, l, d, η, γ1, γ2, τ, β, ω, randomized>(seckey, msg, sig, seed)] *)
Definition sign (p : params) (randomized : bool) (fuel : nat)
    (seckey msg seed : bytes) : option bytes :=
  let '(cx, hasher) := sign_prepare p randomized seckey msg seed in
  match sign_loop p cx fuel (sign_init p hasher) with
  | Some st => Some (sign_serialize p st)
  | None => None
  end.

(** The state in which iteration [i] (counted from 0) starts, when the [i]
    iterations before it rejected. *)
Definition sign_iter (p : params) (cx : sign_ctx) (st0 : sign_state) (i : nat) : sign_state :=
  Nat.iter i (sign_body p cx) st0.

(** The nonce of polynomial [j] of a mask drawn with counter [κ]: the spec
    has [expand_mask] seed the stream of polynomial [j] with the two bytes
    of [κ + j]. *)
Definition mask_nonce (κ j : Z) : Z := u16 (κ + j).

(** ** Verification *)

(** The values [verify] computes before it combines its flags. *)
Record verify_view := mk_verify_view {
  vw_failed : bool; vw_z : list zq_t; vw_h : list zq_t;
  vw_mu : bytes; vw_w1 : list zq_t; vw_hash_out : bytes }.

Definition verify_compute (p : params) (pubkey msg sig : bytes) : verify_view :=
  let t1_bw := bit_width Q - d p in
  let pkoff0 := 0 in
  let pkoff1 := pkoff0 + 32 in
  let pkoff2 := pub_key_len (k p) (d p) in
  let gamma1_bw := bit_width (γ1 p) in
  let sigoff0 := 0 in
  let sigoff1 := sigoff0 + 32 in
  let sigoff2 := sigoff1 + 32 * l p * gamma1_bw in
  let sigoff3 := sig_len (k p) (l p) (γ1 p) (ω p) in
  let A := expand_a (k p) (l p) (subspan pkoff0 (pkoff1 - pkoff0) pubkey) in
  let t1 := decode (k p) t1_bw (subspan pkoff1 (pkoff2 - pkoff1) pubkey) in
  let hasher := shake256_new in
  let hasher := absorb pubkey hasher in
  let hasher := finalize hasher in
  let '(crh_in, hasher) := squeeze 32 hasher in
  let hasher := reset hasher in
  let hasher := absorb crh_in hasher in
  let hasher := absorb msg hasher in
  let hasher := finalize hasher in
  let '(mu, hasher) := squeeze 64 hasher in
  let c := sample_in_ball (τ p) (subspan sigoff0 (sigoff1 - sigoff0) sig) in
  let c := ntt_ntt c in
  let z := decode (l p) gamma1_bw (subspan sigoff1 (sigoff2 - sigoff1) sig) in
  let z := sub_from_x (l p) (γ1 p) z in
  let '(failed, h) :=
    decode_hint_bits (k p) (ω p) (subspan sigoff2 (sigoff3 - sigoff2) sig) in
  let z0 := z in
  let z := polyvec_ntt (l p) z in
  let w0 := matrix_multiply (k p) (l p) (l p) 1 A z in
  let t1 := shl (k p) (d p) t1 in
  let t1 := polyvec_ntt (k p) t1 in
  let w2 := mul_by_poly (k p) c t1 in
  let w2 := neg (k p) w2 in
  let w2 := add_to (k p) w0 w2 in
  let w2 := polyvec_intt (k p) w2 in
  let α := u32 (Z.shiftl (γ2 p) 1) in
  let m := (Q - 1) / α in
  let w1bw := bit_width (u32 (m - 1)) in
  let w1 := use_hint (k p) α h w2 in
  let hash_in := mu ++ encode (k p) w1bw w1 in
  let hasher := reset hasher in
  let hasher := absorb hash_in hasher in
  let hasher := finalize hasher in
  let '(hash_out, hasher) := squeeze 32 hasher in
  mk_verify_view failed z0 h mu w1 hash_out.

(** The loop of lines 428-430: [flg1 |= sig[sigoff0 + i] ^ hash_out[i]] for
    the indices of [hash_out]. *)
Definition verify_flg1 (sig hash_out : bytes) : bool :=
  fold_left
    (fun flg1 i => flg1 || negb (Z.lxor (nth i sig 0) (nth i hash_out 0) =? 0))
    (seq 0 (List.length hash_out)) false.

(** [verify<k, l, d, γ1, γ2, τ, β, ω>(pubkey, msg, sig)] *)
Definition verify (p : params) (pubkey msg sig : bytes) : bool :=
  let vw := verify_compute p pubkey msg sig in
  let z_norm := infinity_norm (l p) (vw_z vw) in
  let count_1 := count_1s (k p) (vw_h vw) in
  let bound0 := zq_of (u32 (γ1 p - β p)) in
  let flg0 := z_norm <? bound0 in
  let flg1 := verify_flg1 sig (vw_hash_out vw) in
  let flg2 := count_1 <=? ω p in
  let flg3 := flg0 && negb flg1 && flg2 in
  let flg4 := negb (vw_failed vw) && flg3 in
  flg4.

(** The fields of a signature as [verify] reads them, and the message
    representative it recomputes. *)
Definition w1_bw (p : params) : Z :=
  bit_width (u32 ((Q - 1) / u32 (Z.shiftl (γ2 p) 1) - 1)).

Definition sig_c_tilde (sig : bytes) : bytes := subspan 0 32 sig.

Definition sig_z (p : params) (sig : bytes) : list zq_t :=
  sub_from_x (l p) (γ1 p)
    (decode (l p) (bit_width (γ1 p))
       (subspan 32 (32 * l p * bit_width (γ1 p)) sig)).

Definition sig_hints (p : params) (sig : bytes) : bool * list zq_t :=
  let sigoff2 := 32 + 32 * l p * bit_width (γ1 p) in
  decode_hint_bits (k p) (ω p)
    (subspan sigoff2 (sig_len (k p) (l p) (γ1 p) (ω p) - sigoff2) sig).

Definition verify_mu (pubkey msg : bytes) : bytes :=
  shake256 (shake256 pubkey 32 ++ msg) 64.

(** The message representative of [sign]: SHAKE256(tr ‖ msg, 64) with [tr]
    the third 32-byte field of the secret key. *)
Definition sign_mu (seckey msg : bytes) : bytes :=
  shake256 (subspan 64 32 seckey ++ msg) 64.

End Signer.

(** ** A small instance of the helper interface *)

(** The statements below hold for every implementation of the helper
    routines.  This instance shows that their assumptions can be met: its
    vectors are constant, every norm is [norm], and [xorBinaryStrings] xors
    each coefficient with [mask]. *)
Definition pad_to (n : nat) (bs : bytes) : bytes := firstn n (bs ++ repeat 0 n).

Definition const_vec (n : Z) (a : zq_t) : list zq_t := repeat a (Z.to_nat (n * N)).

Definition small_primitives (norm : zq_t) (mask : Z) : Primitives := {|
  shake256_xof := fun msg i => (fold_right Z.add 0 msg + Z.of_nat i) mod 256;
  expand_a := fun k l _ => const_vec (k * l) 1;
  expand_s := fun _ n _ _ => const_vec n 0;
  expand_mask := fun _ l _ _ => const_vec l 0;
  sample_in_ball := fun _ _ => const_vec 1 0;
  ntt_ntt := fun c => c;
  polyvec_ntt := fun _ v => v;
  polyvec_intt := fun _ v => v;
  matrix_multiply := fun k _ _ _ _ _ => const_vec k 0;
  add_to := fun _ _ dst => dst;
  neg := fun _ v => map (fun a => (- a) mod Q) v;
  shl := fun _ d v => map (fun a => (a * 2 ^ d) mod Q) v;
  sub_from_x := fun _ x v => map (fun a => (x - a) mod Q) v;
  mul_by_poly := fun n _ _ => const_vec n 0;
  power2round := fun k _ _ => (const_vec k 0, const_vec k 0);
  highbits := fun k _ _ => const_vec k 0;
  lowbits := fun k _ _ => const_vec k 0;
  make_hint := fun k _ _ _ => const_vec k 0;
  use_hint := fun k _ _ _ => const_vec k 0;
  infinity_norm := fun _ _ => norm;
  count_1s := fun _ _ => 0;
  encode := fun n bw v => pad_to (Z.to_nat (n * bw * 32)) (map (fun a => a mod 256) v);
  decode := fun n _ bs => pad_to (Z.to_nat (n * N)) bs;
  encode_hint_bits := fun k ω _ => repeat 0 (Z.to_nat (ω + k));
  decode_hint_bits := fun k _ _ => (false, const_vec k 0);
  entropy := unit;
  generateRandomBinaryString := fun _ _ => "1"%string;
  xorBinaryStrings := fun _ v => map (fun a => Z.lxor a mask) v
|}.

(** ** Candidates by nonce *)

Section Candidates.
Context {P : Primitives}.

(** The candidate an iteration computes when it starts with counter [κ]. *)
Definition candidate_at (p : params) (cx : sign_ctx) (κ : Z) : candidate :=
  sign_candidate p cx (mk_sign_state shake256_new false κ [] [] []).

(** The four bounds the loop tests on a candidate (lines 286-308). *)
Definition candidate_ok (p : params) (cd : candidate) : Prop :=
  infinity_norm (l p) (cd_z cd) < γ1 p - β p /\
  infinity_norm (k p) (cd_r0 cd) < γ2 p - β p /\
  infinity_norm (k p) (cd_h1 cd) < γ2 p /\
  count_1s (k p) (cd_h cd) <= ω p.

(** The w1 whose packing an iteration with counter [κ] hashes into its c̃:
    the high bits of w = intt(A · ntt(y)) for the mask y drawn with [κ]
    (lines 237-254). *)
Definition candidate_w1 (p : params) (cx : sign_ctx) (κ : Z) : list zq_t :=
  let y := expand_mask (γ1 p) (l p) (cx_rho_prime cx) κ in
  let w := polyvec_intt (k p)
             (matrix_multiply (k p) (l p) (l p) 1 (cx_A cx) (polyvec_ntt (l p) y)) in
  highbits (k p) (u32 (Z.shiftl (γ2 p) 1)) w.

End Candidates.

(** ** An instance that packs bits *)

(** Coefficients written as [w] little-endian bits each, the bits then cut
    into bytes, and back.  Together with the constant vectors of
    [small_primitives] this gives an instance whose packing round-trips. *)
Definition bits_le (w : Z) (a : Z) : list bool :=
  map (fun i => Z.testbit a (Z.of_nat i)) (seq 0 (Z.to_nat w)).

Fixpoint of_bits_le (bs : list bool) : Z :=
  match bs with
  | [] => 0
  | b :: bs => Z.b2z b + 2 * of_bits_le bs
  end.

Fixpoint chunks {A : Type} (count w : nat) (xs : list A) : list (list A) :=
  match count with
  | O => []
  | S count => firstn w xs :: chunks count w (skipn w xs)
  end.

Definition pack_bits (n bw : Z) (v : list zq_t) : bytes :=
  map of_bits_le (chunks (Z.to_nat (n * bw * 32)) 8 (flat_map (bits_le bw) v)).

Definition unpack_bits (n bw : Z) (bs : bytes) : list zq_t :=
  map of_bits_le (chunks (Z.to_nat (n * N)) (Z.to_nat bw) (flat_map (bits_le 8) bs)).

Definition packing_primitives : Primitives :=
  let S := small_primitives 0 0 in {|
  shake256_xof := @shake256_xof S;
  expand_a := @expand_a S;
  expand_s := @expand_s S;
  expand_mask := @expand_mask S;
  sample_in_ball := @sample_in_ball S;
  ntt_ntt := @ntt_ntt S;
  polyvec_ntt := @polyvec_ntt S;
  polyvec_intt := @polyvec_intt S;
  matrix_multiply := @matrix_multiply S;
  add_to := @add_to S;
  neg := @neg S;
  shl := @shl S;
  sub_from_x := @sub_from_x S;
  mul_by_poly := @mul_by_poly S;
  power2round := @power2round S;
  highbits := @highbits S;
  lowbits := @lowbits S;
  make_hint := @make_hint S;
  use_hint := @use_hint S;
  infinity_norm := @infinity_norm S;
  count_1s := @count_1s S;
  encode := pack_bits;
  decode := unpack_bits;
  encode_hint_bits := @encode_hint_bits S;
  decode_hint_bits := @decode_hint_bits S;
  entropy := unit;
  generateRandomBinaryString := fun _ _ => "0"%string;
  xorBinaryStrings := fun _ v => v
|}.

(** * Properties *)

(** ** Integers, lists and the hasher *)

Lemma u16_add_u16 (a b : Z) : u16 (u16 a + u16 b) = u16 (a + b).
Proof. unfold u16. now rewrite <- Z.add_mod by lia. Qed.

Lemma u16_small (a : Z) : 0 <= a < 2 ^ 16 -> u16 a = a.
Proof. intros H. unfold u16. now apply Z.mod_small. Qed.

Lemma firstn_app_exact {A} (a b : list A) (n : nat) :
  List.length a = n -> firstn n (a ++ b) = a.
Proof.
  intros <-. rewrite firstn_app, Nat.sub_diag, firstn_all. simpl.
  now rewrite app_nil_r.
Qed.

Lemma skipn_app_exact {A} (a b : list A) (n : nat) :
  List.length a = n -> skipn n (a ++ b) = b.
Proof.
  intros <-. rewrite skipn_app, Nat.sub_diag, skipn_all. reflexivity.
Qed.

Lemma subspan_length (off len : Z) (s : bytes) :
  (Z.to_nat off + Z.to_nat len <= List.length s)%nat ->
  List.length (subspan off len s) = Z.to_nat len.
Proof.
  intros H. unfold subspan. rewrite length_firstn, length_skipn. lia.
Qed.

Lemma pad_to_length (n : nat) (bs : bytes) : List.length (pad_to n bs) = n.
Proof.
  unfold pad_to. rewrite length_firstn, length_app, repeat_length. lia.
Qed.

(** The byte lengths of the three standardized modes. *)
Example key_and_signature_lengths :
  (pub_key_len 4 13, sec_key_len 4 4 2 13, sig_len 4 4 (2 ^ 17) 80) = (1312, 2528, 2420) /\
  (pub_key_len 6 13, sec_key_len 6 5 4 13, sig_len 6 5 (2 ^ 19) 55) = (1952, 4000, 3293) /\
  (pub_key_len 8 13, sec_key_len 8 7 2 13, sig_len 8 7 (2 ^ 19) 75) = (2592, 4864, 4595).
Proof. repeat split. Qed.

Section SignerFacts.
Context {P : Primitives}.

Lemma shake256_length (msg : bytes) (n : nat) : List.length (shake256 msg n) = n.
Proof. unfold shake256. now rewrite length_map, length_seq. Qed.

(** A hasher that is reset, fed one message and finalized yields the SHAKE256
    stream of that message, whatever it was used for before. *)
Lemma squeeze_after_reset (hs : shake256_t) (m : bytes) (n : nat) :
  squeeze n (finalize (absorb m (reset hs))) = (shake256 m n, mk_shake256 m true n).
Proof. reflexivity. Qed.

Lemma squeeze_new (m : bytes) (n : nat) :
  squeeze n (finalize (absorb m shake256_new)) = (shake256 m n, mk_shake256 m true n).
Proof. reflexivity. Qed.

Lemma squeeze_new2 (m1 m2 : bytes) (n : nat) :
  squeeze n (finalize (absorb m2 (absorb m1 shake256_new)))
  = (shake256 (m1 ++ m2) n, mk_shake256 (m1 ++ m2) true n).
Proof. reflexivity. Qed.

Lemma absorb_empty (hs : shake256_t) : absorb [] hs = hs.
Proof.
  unfold absorb. destruct hs as [a f s]; simpl. destruct f; [reflexivity|].
  now rewrite app_nil_r.
Qed.

(** ** The parameter sets *)

Lemma check_signing_params_cases (p : params) :
  check_signing_params p = true -> p = dilithium2 \/ p = dilithium3 \/ p = dilithium5.
Proof.
  unfold check_signing_params, params_eqb. destruct p as [k0 l0 d0 e0 g1 g2 t0 b0 w0].
  cbn [k l d η γ1 γ2 τ β ω].
  rewrite !orb_true_iff, !andb_true_iff, !Z.eqb_eq.
  intros [[H | H] | H]; [left | right; left | right; right];
    decompose [and] H; subst; reflexivity.
Qed.

(** The three bounds of the rejection loop are field elements that stand for
    themselves: no 32-bit subtraction wraps and no value reaches Q. *)
Lemma signing_bounds (p : params) :
  check_signing_params p = true ->
  zq_of (u32 (γ1 p - β p)) = γ1 p - β p /\
  zq_of (u32 (γ2 p - β p)) = γ2 p - β p /\
  zq_of (γ2 p) = γ2 p.
Proof.
  intros H. destruct (check_signing_params_cases p H) as [-> | [-> | ->]];
    vm_compute; repeat split; reflexivity.
Qed.

Lemma verify_bound (p : params) :
  check_verify_params p = true -> zq_of (u32 (γ1 p - β p)) = γ1 p - β p.
Proof.
  unfold check_verify_params. destruct p as [k0 l0 d0 e0 g1 g2 t0 b0 w0].
  cbn [k l d η γ1 γ2 τ β ω].
  rewrite !orb_true_iff, !andb_true_iff, !Z.eqb_eq.
  intros [[H | H] | H]; decompose [and] H; subst; reflexivity.
Qed.

(** ** The rejection loop *)

Lemma sign_iter_S (p : params) (cx : sign_ctx) (st0 : sign_state) (i : nat) :
  sign_iter p cx st0 (S i) = sign_body p cx (sign_iter p cx st0 i).
Proof. reflexivity. Qed.

Lemma sign_iter_shift (p : params) (cx : sign_ctx) (st0 : sign_state) (i : nat) :
  sign_iter p cx st0 (S i) = sign_iter p cx (sign_body p cx st0) i.
Proof.
  unfold sign_iter. induction i as [|i IH]; [reflexivity|].
  change (Nat.iter (S (S i)) (sign_body p cx) st0)
    with (sign_body p cx (Nat.iter (S i) (sign_body p cx) st0)).
  rewrite IH. reflexivity.
Qed.

Lemma kappa_sign_body (p : params) (cx : sign_ctx) (st : sign_state) :
  kappa (sign_body p cx st) = u16 (kappa st + u16 (l p)).
Proof. reflexivity. Qed.

(** The counter after [i] iterations, accepted or not. *)
Lemma kappa_sign_iter (p : params) (cx : sign_ctx) (st0 : sign_state) (i : nat) :
  kappa (sign_iter p cx st0 i) = u16 (kappa st0 + Z.of_nat i * l p) \/ i = O.
Proof.
  destruct i as [|i]; [now right | left].
  induction i as [|i IH].
  - rewrite sign_iter_S. change (sign_iter p cx st0 0) with st0.
    rewrite kappa_sign_body. rewrite <- (u16_add_u16 (kappa st0) (Z.of_nat 1 * l p)).
    rewrite <- (u16_add_u16 (kappa st0) (u16 (l p))).
    f_equal. f_equal. unfold u16. rewrite Z.mod_mod by lia. f_equal. lia.
  - rewrite sign_iter_S, kappa_sign_body, IH, u16_add_u16. f_equal. lia.
Qed.

Lemma kappa_sign_iter_init (p : params) (cx : sign_ctx) (hs : shake256_t) (i : nat) :
  kappa (sign_iter p cx (sign_init p hs) i) = u16 (Z.of_nat i * l p).
Proof.
  destruct (kappa_sign_iter p cx (sign_init p hs) i) as [H | ->].
  - rewrite H. reflexivity.
  - reflexivity.
Qed.

Lemma sign_loop_eq (p : params) (cx : sign_ctx) (fuel : nat) (st : sign_state) :
  sign_loop p cx fuel st
  = if has_signed st then Some st
    else match fuel with
         | O => None
         | S fuel => sign_loop p cx fuel (sign_body p cx st)
         end.
Proof. destruct fuel; reflexivity. Qed.

(** More fuel does not change the outcome of a loop that has stopped. *)
Lemma sign_loop_more_fuel (p : params) (cx : sign_ctx) (f1 f2 : nat) :
  (f1 <= f2)%nat -> forall st st',
  sign_loop p cx f1 st = Some st' -> sign_loop p cx f2 st = Some st'.
Proof.
  revert f2. induction f1 as [|f1 IH]; intros f2 Hle st st' H.
  - destruct f2; simpl in *; destruct (has_signed st); congruence.
  - destruct f2 as [|f2]; [lia|]. simpl in *.
    destruct (has_signed st); [assumption|]. apply IH; [lia | assumption].
Qed.

(** The loop stops at the first state with [has_signed] set: the result of
    [sign_loop] is a state [sign_iter _ _ st n] whose predecessors were all
    rejected. *)
Lemma sign_loop_stops (p : params) (cx : sign_ctx) (fuel : nat) :
  forall st st', sign_loop p cx fuel st = Some st' ->
  exists n, (n <= fuel)%nat /\ st' = sign_iter p cx st n /\ has_signed st' = true /\
            forall j, (j < n)%nat -> has_signed (sign_iter p cx st j) = false.
Proof.
  induction fuel as [|fuel IH]; intros st st' H; simpl in H.
  - destruct (has_signed st) eqn:E; [|discriminate]. injection H as <-.
    exists O. repeat split; [lia | assumption | intros j Hj; lia].
  - destruct (has_signed st) eqn:E.
    + injection H as <-. exists O. repeat split; [lia | assumption | intros j Hj; lia].
    + destruct (IH _ _ H) as (n & Hn & -> & Hs & Hrej).
      exists (S n). repeat split.
      * lia.
      * now rewrite sign_iter_shift.
      * now rewrite <- sign_iter_shift in Hs |- *.
      * intros [|j] Hj; [exact E|]. rewrite sign_iter_shift. apply Hrej. lia.
Qed.

Lemma sign_loop_rejecting (p : params) (cx : sign_ctx) (fuel : nat) :
  forall st, (forall j, (j <= fuel)%nat -> has_signed (sign_iter p cx st j) = false) ->
  sign_loop p cx fuel st = None.
Proof.
  induction fuel as [|fuel IH]; intros st H; simpl.
  - pose proof (H O (Nat.le_refl _)) as H0. change (sign_iter p cx st 0) with st in H0.
    now rewrite H0.
  - pose proof (H O ltac:(lia)) as H0. change (sign_iter p cx st 0) with st in H0.
    rewrite H0. apply IH. intros j Hj.
    rewrite <- sign_iter_shift. apply H. lia.
Qed.

(** A call of [sign] that returns has serialized the first accepted
    candidate. *)
Lemma sign_returns_first_accepted (p : params) (randomized : bool) (fuel : nat)
    (seckey msg seed sig : bytes) :
  sign p randomized fuel seckey msg seed = Some sig ->
  let cx := fst (sign_prepare p randomized seckey msg seed) in
  let st0 := sign_init p (snd (sign_prepare p randomized seckey msg seed)) in
  exists n, (n <= fuel)%nat /\
    has_signed (sign_iter p cx st0 n) = true /\
    (forall j, (j < n)%nat -> has_signed (sign_iter p cx st0 j) = false) /\
    sig = sign_serialize p (sign_iter p cx st0 n).
Proof.
  unfold sign. destruct (sign_prepare p randomized seckey msg seed) as [cx hs].
  cbn [fst snd].
  destruct (sign_loop p cx fuel (sign_init p hs)) as [st|] eqn:E; [|discriminate].
  intros H. injection H as <-.
  destruct (sign_loop_stops p cx fuel _ _ E) as (n & Hn & -> & Hs & Hrej).
  exists n. repeat split; assumption.
Qed.

Lemma has_signed_sign_body (p : params) (cx : sign_ctx) (st : sign_state) :
  has_signed (sign_body p cx st)
  = negb ((zq_of (u32 (γ1 p - β p)) <=? infinity_norm (l p) (cd_z (sign_candidate p cx st)))
          || (zq_of (u32 (γ2 p - β p)) <=? infinity_norm (k p) (cd_r0 (sign_candidate p cx st))))
    && negb ((zq_of (γ2 p) <=? infinity_norm (k p) (cd_h1 (sign_candidate p cx st)))
             || (ω p <? count_1s (k p) (cd_h (sign_candidate p cx st)))).
Proof. reflexivity. Qed.

(** What one iteration hands to the next and to the serialization is its own
    candidate; nothing of the state it started from survives but [kappa]. *)
Lemma sign_body_candidate (p : params) (cx : sign_ctx) (st : sign_state) :
  z (sign_body p cx st) = cd_z (sign_candidate p cx st) /\
  h (sign_body p cx st) = cd_h (sign_candidate p cx st) /\
  hash_out (sign_body p cx st) = cd_hash_out (sign_candidate p cx st).
Proof. repeat split. Qed.

(** C4: an iteration of the rejection loop of [sign] is accepted exactly when
    the norm of z is below γ1 − β, the norm of r0 is below γ2 − β, the norm
    of c·t0 is below γ2 and the hint vector has at most ω ones.  An accepted
    iteration ends the loop with its candidate; a rejected one advances the
    counter and runs the loop again. *)
Theorem sign_iteration_accepted_iff (p : params) (cx : sign_ctx) (st : sign_state) :
  check_signing_params p = true ->
  has_signed st = false ->
  let cd := sign_candidate p cx st in
  let accepted :=
    infinity_norm (l p) (cd_z cd) < γ1 p - β p /\
    infinity_norm (k p) (cd_r0 cd) < γ2 p - β p /\
    infinity_norm (k p) (cd_h1 cd) < γ2 p /\
    count_1s (k p) (cd_h cd) <= ω p in
  (has_signed (sign_body p cx st) = true <-> accepted) /\
  (accepted ->
     forall fuel, sign_loop p cx (S fuel) st = Some (sign_body p cx st)) /\
  (~ accepted ->
     forall fuel, sign_loop p cx (S fuel) st = sign_loop p cx fuel (sign_body p cx st) /\
                  has_signed (sign_body p cx st) = false /\
                  kappa (sign_body p cx st) = u16 (kappa st + l p)).
Proof.
  intros Hp Hst cd accepted.
  destruct (signing_bounds p Hp) as (B0 & B1 & B2).
  assert (Hiff : has_signed (sign_body p cx st) = true <-> accepted).
  { rewrite has_signed_sign_body, B0, B1, B2. fold cd. unfold accepted.
    rewrite andb_true_iff, !negb_true_iff, !orb_false_iff, !Z.leb_gt, Z.ltb_ge.
    tauto. }
  split; [exact Hiff|]. split.
  - intros Hacc fuel. apply Hiff in Hacc.
    rewrite sign_loop_eq, Hst, sign_loop_eq, Hacc. reflexivity.
  - intros Hrej fuel. repeat split.
    + now rewrite sign_loop_eq, Hst.
    + destruct (has_signed (sign_body p cx st)) eqn:E; [|reflexivity].
      exfalso. apply Hrej, Hiff. reflexivity.
    + rewrite kappa_sign_body, <- (u16_add_u16 (kappa st) (l p)),
        <- (u16_add_u16 (kappa st) (u16 (l p))).
      unfold u16 at 3. unfold u16 at 3. now rewrite Z.mod_mod by lia.
Qed.

(** C5: in deterministic mode two calls of [sign] on the same secret key and
    message that both return produce the same signature, byte for byte;
    nothing else a call receives (the unused seed span, the number of
    iterations it is allowed) has a say. *)
Theorem sign_deterministic (p : params) (seckey msg : bytes)
    (fuel1 fuel2 : nat) (seed1 seed2 : bytes) :
  sign p false fuel1 seckey msg seed1 <> None ->
  sign p false fuel2 seckey msg seed2 <> None ->
  sign p false fuel1 seckey msg seed1 = sign p false fuel2 seckey msg seed2.
Proof.
  unfold sign.
  change (sign_prepare p false seckey msg seed2)
    with (sign_prepare p false seckey msg seed1).
  destruct (sign_prepare p false seckey msg seed1) as [cx hs].
  destruct (sign_loop p cx fuel1 (sign_init p hs)) as [st1|] eqn:E1; [|congruence].
  destruct (sign_loop p cx fuel2 (sign_init p hs)) as [st2|] eqn:E2; [|congruence].
  intros _ _.
  apply (sign_loop_more_fuel p cx fuel1 (Nat.max fuel1 fuel2)) in E1; [|lia].
  apply (sign_loop_more_fuel p cx fuel2 (Nat.max fuel1 fuel2)) in E2; [|lia].
  congruence.
Qed.

(** C6, as the code has it: in every iteration of the rejection loop,
    accepted or rejected, the 16-bit counter κ handed to [expand_mask]
    advances by l modulo 2^16; iteration i uses the nonce i·l as long as
    i·l is below 2^16. *)
Theorem kappa_advances_every_iteration (p : params) (cx : sign_ctx)
    (hs : shake256_t) (st : sign_state) (i : nat) :
  Z.of_nat i * l p < 2 ^ 16 ->
  0 <= l p ->
  kappa (sign_body p cx st) = (kappa st + l p) mod 2 ^ 16 /\
  kappa (sign_iter p cx (sign_init p hs) i) = Z.of_nat i * l p.
Proof.
  intros Hi Hl. split.
  - rewrite kappa_sign_body. unfold u16. now rewrite Z.add_mod_idemp_r by lia.
  - rewrite kappa_sign_iter_init. apply u16_small. lia.
Qed.

(** C10: κ is a 16-bit unsigned counter.  The nonce handed to [expand_mask]
    in iteration i is (i·l) mod 2^16; once i·l has reached 2^16 the nonce of
    the first polynomial of iteration i is one that an earlier iteration has
    used already. *)
Theorem kappa_is_16_bit_counter (p : params) (cx : sign_ctx)
    (hs : shake256_t) (i : nat) :
  0 < l p ->
  let nonce n := kappa (sign_iter p cx (sign_init p hs) n) in
  nonce i = (Z.of_nat i * l p) mod 2 ^ 16 /\
  (2 ^ 16 <= Z.of_nat i * l p ->
   exists (j : nat) (b : Z),
     (j < i)%nat /\ 0 <= b < l p /\ mask_nonce (nonce i) 0 = mask_nonce (nonce j) b).
Proof.
  intros Hl nonce. unfold nonce. split; [apply kappa_sign_iter_init|].
  intros Hwrap. rewrite !kappa_sign_iter_init.
  set (v := u16 (Z.of_nat i * l p)).
  assert (Hv : 0 <= v < 2 ^ 16) by (apply Z.mod_pos_bound; lia).
  exists (Z.to_nat (v / l p)), (v mod l p).
  pose proof (Z.div_mod v (l p) ltac:(lia)) as Hdm.
  pose proof (Z.mod_pos_bound v (l p) Hl) as Hm.
  assert (Hq : 0 <= v / l p) by (apply Z.div_pos; lia).
  split; [|split].
  - apply Nat2Z.inj_lt. rewrite Z2Nat.id by assumption. nia.
  - assumption.
  - rewrite kappa_sign_iter_init, Z2Nat.id by assumption.
    unfold mask_nonce. rewrite (u16_small (v / l p * l p)) by nia.
    f_equal. lia.
Qed.

(** ** Verification *)

Lemma fold_left_orb {A} (f : A -> bool) (xs : list A) (acc : bool) :
  fold_left (fun b x => b || f x) xs acc = acc || existsb f xs.
Proof.
  revert acc. induction xs as [|x xs IH]; intros acc; simpl.
  - now rewrite orb_false_r.
  - rewrite IH. now rewrite orb_assoc.
Qed.

(** The byte-wise comparison of lines 428-430 leaves [flg1] clear exactly
    when the first bytes of the signature are the recomputed hash. *)
Lemma verify_flg1_false_iff (sig hash_out : bytes) :
  (List.length hash_out <= List.length sig)%nat ->
  verify_flg1 sig hash_out = false <-> firstn (List.length hash_out) sig = hash_out.
Proof.
  intros Hlen. unfold verify_flg1. rewrite fold_left_orb. simpl.
  rewrite <- not_true_iff_false, existsb_exists. split.
  - intros H. apply (nth_ext _ _ 0 0).
    + rewrite length_firstn. now apply Nat.min_l.
    + intros i Hi. rewrite length_firstn, Nat.min_l in Hi by assumption.
      rewrite nth_firstn.
      destruct (Nat.ltb_spec i (List.length hash_out)) as [Hlt|]; [|lia].
      destruct (Z.eq_dec (nth i sig 0) (nth i hash_out 0)) as [|Hne]; [assumption|].
      exfalso. apply H. exists i. split.
      * apply in_seq. lia.
      * apply negb_true_iff, Z.eqb_neq. now rewrite Z.lxor_eq_0_iff.
  - intros H (i & Hin & Hi). apply in_seq in Hin.
    apply negb_true_iff, Z.eqb_neq in Hi. apply Hi, Z.lxor_eq_0_iff.
    assert (E : nth i hash_out 0 = nth i (firstn (List.length hash_out) sig) 0)
      by now rewrite H.
    rewrite E, nth_firstn.
    destruct (Nat.ltb_spec i (List.length hash_out)); [reflexivity | lia].
Qed.

(** The values [verify] works with, read off its code. *)
Lemma verify_compute_fields (p : params) (pubkey msg sig : bytes) :
  let vw := verify_compute p pubkey msg sig in
  vw_failed vw = fst (sig_hints p sig) /\
  vw_h vw = snd (sig_hints p sig) /\
  vw_z vw = sig_z p sig /\
  vw_mu vw = verify_mu pubkey msg /\
  vw_hash_out vw
  = shake256 (verify_mu pubkey msg ++ encode (k p) (w1_bw p) (vw_w1 vw)) 32.
Proof.
  unfold verify_compute, sig_hints, sig_z, verify_mu, w1_bw. cbv zeta.
  rewrite squeeze_new. cbv iota beta.
  rewrite (squeeze_new2 (shake256 pubkey 32) msg 64). cbv iota beta.
  replace (0 + 32 + 32 * l p * bit_width (γ1 p) - (0 + 32))
    with (32 * l p * bit_width (γ1 p)) by lia.
  change (0 + 32) with 32.
  destruct (decode_hint_bits _ _ _) as [failed hh].
  rewrite squeeze_after_reset. cbv iota beta.
  repeat split.
Qed.

(** [verify] returns true exactly when its four flags allow it. *)
Lemma verify_true_iff (p : params) (pubkey msg sig : bytes) :
  check_verify_params p = true ->
  Z.of_nat (List.length sig) = sig_len (k p) (l p) (γ1 p) (ω p) ->
  verify p pubkey msg sig = true <->
    fst (sig_hints p sig) = false /\
    infinity_norm (l p) (sig_z p sig) < γ1 p - β p /\
    count_1s (k p) (snd (sig_hints p sig)) <= ω p /\
    shake256 (verify_mu pubkey msg
              ++ encode (k p) (w1_bw p) (vw_w1 (verify_compute p pubkey msg sig))) 32
    = sig_c_tilde sig.
Proof.
  intros Hp Hlen.
  destruct (verify_compute_fields p pubkey msg sig) as (Hf & Hh & Hz & Hmu & Hho).
  unfold verify. cbv zeta.
  rewrite (verify_bound p Hp), Hf, Hh, Hz.
  assert (H32 : (32 <= List.length sig)%nat).
  { assert (32 <= sig_len (k p) (l p) (γ1 p) (ω p)); [|lia].
    revert Hp. clear. unfold check_verify_params.
    destruct p as [k0 l0 d0 e0 g1 g2 t0 b0 w0]. cbn [k l d η γ1 γ2 τ β ω].
    rewrite !orb_true_iff, !andb_true_iff, !Z.eqb_eq.
    intros [[H | H] | H]; decompose [and] H; subst; vm_compute; discriminate. }
  rewrite !andb_true_iff, !negb_true_iff, Z.ltb_lt, Z.leb_le.
  rewrite verify_flg1_false_iff by (rewrite Hho, shake256_length; exact H32).
  rewrite Hho, shake256_length. unfold sig_c_tilde, subspan.
  change (firstn (Z.to_nat 32) (skipn (Z.to_nat 0) sig)) with (firstn 32 sig).
  split.
  - intros (Hfl & (Hn & He) & Hc). repeat split; auto.
  - intros (Hfl & Hn & Hc & He). repeat split; auto.
Qed.

(** C3: [verify] returns true if and only if hint decoding succeeded, the
    infinity norm of the decoded z is strictly below γ1 − β, the decoded hint
    vector has at most ω ones and SHAKE256(μ ‖ pack(w1′, w1_bw), 32) is the
    c̃ field of the signature; any single failure gives false. *)
Theorem verify_accepts_iff (p : params) (pubkey msg sig : bytes) :
  check_verify_params p = true ->
  Z.of_nat (List.length sig) = sig_len (k p) (l p) (γ1 p) (ω p) ->
  let w1' := vw_w1 (verify_compute p pubkey msg sig) in
  verify p pubkey msg sig = true <->
    fst (sig_hints p sig) = false /\
    infinity_norm (l p) (sig_z p sig) < γ1 p - β p /\
    count_1s (k p) (snd (sig_hints p sig)) <= ω p /\
    shake256 (verify_mu pubkey msg ++ encode (k p) (w1_bw p) w1') 32 = sig_c_tilde sig.
Proof. intros Hp Hlen w1'. now apply verify_true_iff. Qed.

(** C7: the only output of [verify] is its boolean.  When hint decoding
    fails, or the norm check, the weight check or the hash comparison fails,
    the result is the one value false, whichever of them it was. *)
Theorem verify_failure_is_false (p : params) (pubkey msg sig : bytes) :
  check_verify_params p = true ->
  Z.of_nat (List.length sig) = sig_len (k p) (l p) (γ1 p) (ω p) ->
  fst (sig_hints p sig) = true \/
  γ1 p - β p <= infinity_norm (l p) (sig_z p sig) \/
  ω p < count_1s (k p) (snd (sig_hints p sig)) \/
  shake256 (verify_mu pubkey msg
            ++ encode (k p) (w1_bw p) (vw_w1 (verify_compute p pubkey msg sig))) 32
  <> sig_c_tilde sig ->
  verify p pubkey msg sig = false.
Proof.
  intros Hp Hlen Hfail. apply not_true_iff_false. intros Hv.
  apply (verify_true_iff p pubkey msg sig Hp Hlen) in Hv.
  destruct Hv as (Hf & Hn & Hc & He).
  destruct Hfail as [H | [H | [H | H]]]; [congruence | lia | lia | contradiction].
Qed.

(** ** Key generation *)

(** The two keys, piece by piece. *)
Lemma keygen_unfold (p : params) (rnd : entropy) (seed : bytes) :
  let MaskStr := generateRandomBinaryString (η p) rnd in
  let eta_bw := bit_width (u32 (2 * η p)) in
  keygen p rnd seed
  = (keygen_rho seed ++ encode (k p) (bit_width Q - d p) (keygen_t1 p seed),
     keygen_rho seed ++ keygen_key seed ++ keygen_tr p seed
       ++ encode (l p) eta_bw
            (xorBinaryStrings MaskStr (sub_from_x (l p) (η p) (keygen_s1 p seed)))
       ++ encode (k p) eta_bw
            (xorBinaryStrings MaskStr (sub_from_x (k p) (η p) (keygen_s2 p seed)))
       ++ encode (k p) (d p)
            (sub_from_x (k p) (u32 (Z.shiftl 1 (d p - 1))) (keygen_t0 p seed))).
Proof.
  unfold keygen, keygen_tr, keygen_t1, keygen_t0, keygen_t, keygen_s1, keygen_s2,
    keygen_key, keygen_rho_prime, keygen_rho, keygen_seed_hash.
  cbv zeta. rewrite squeeze_new. cbv iota beta.
  destruct (power2round _ _ _) as [t1 t0].
  rewrite squeeze_after_reset. reflexivity.
Qed.

Lemma keygen_rho_length (seed : bytes) : List.length (keygen_rho seed) = 32%nat.
Proof. reflexivity. Qed.

Lemma keygen_key_length (seed : bytes) : List.length (keygen_key seed) = 32%nat.
Proof. reflexivity. Qed.

(** C2, as the code has it: [keygen] writes the secret key as
    ρ ‖ K ‖ tr ‖ pack(m(η − s1), η_bw) ‖ pack(m(η − s2), η_bw) ‖
    pack(2^(d−1) − t0, d), where m is [xorBinaryStrings] with the string
    [generateRandomBinaryString(η)] returned: between the map a ← η − a and
    the packing the sampled vectors go through this mask. *)
Theorem keygen_packs_masked_secrets (p : params) (rnd : entropy) (seed : bytes) :
  let MaskStr := generateRandomBinaryString (η p) rnd in
  let eta_bw := bit_width (u32 (2 * η p)) in
  snd (keygen p rnd seed)
  = keygen_rho seed ++ keygen_key seed ++ keygen_tr p seed
      ++ encode (l p) eta_bw
           (xorBinaryStrings MaskStr (sub_from_x (l p) (η p) (keygen_s1 p seed)))
      ++ encode (k p) eta_bw
           (xorBinaryStrings MaskStr (sub_from_x (k p) (η p) (keygen_s2 p seed)))
      ++ encode (k p) (d p)
           (sub_from_x (k p) (2 ^ (d p - 1) mod 2 ^ 32) (keygen_t0 p seed)).
Proof.
  intros MaskStr eta_bw. rewrite keygen_unfold. cbn [snd].
  unfold u32. now rewrite Z.shiftl_1_l.
Qed.

(** C8: the public key and the secret key of one [keygen] call start with
    the same 32 bytes, the ρ taken from the head of SHAKE256(seed, 128). *)
Theorem keygen_keys_share_rho (p : params) (rnd : entropy) (seed : bytes) :
  firstn 32 (fst (keygen p rnd seed)) = firstn 32 (shake256 seed 128) /\
  firstn 32 (snd (keygen p rnd seed)) = firstn 32 (shake256 seed 128) /\
  firstn 32 (fst (keygen p rnd seed)) = firstn 32 (snd (keygen p rnd seed)) /\
  List.length (firstn 32 (fst (keygen p rnd seed))) = 32%nat.
Proof.
  rewrite keygen_unfold. cbn [fst snd].
  rewrite !(firstn_app_exact (keygen_rho seed)) by apply keygen_rho_length.
  repeat split.
Qed.

(** ** The message *)

(** An iteration resets the hasher before it uses it: of the state it starts
    from, only the counter matters. *)
Lemma sign_body_from_kappa (p : params) (cx : sign_ctx) (st st' : sign_state) :
  kappa st = kappa st' -> sign_body p cx st = sign_body p cx st'.
Proof.
  intros H. unfold sign_body, sign_candidate. cbv zeta.
  rewrite !squeeze_after_reset. cbv iota beta. rewrite H. reflexivity.
Qed.

Lemma sign_loop_from_init (p : params) (cx : sign_ctx) (fuel : nat) (hs hs' : shake256_t) :
  sign_loop p cx fuel (sign_init p hs) = sign_loop p cx fuel (sign_init p hs').
Proof.
  destruct fuel as [|fuel]; [reflexivity|].
  rewrite (sign_loop_eq p cx (S fuel) (sign_init p hs)),
          (sign_loop_eq p cx (S fuel) (sign_init p hs')).
  cbn [has_signed sign_init].
  now rewrite (sign_body_from_kappa p cx (sign_init p hs) (sign_init p hs')).
Qed.

(** What [sign] prepares, with the message representative singled out. *)
Lemma sign_prepare_mu (p : params) (randomized : bool) (seckey msg seed : bytes) :
  exists prep : bytes -> sign_ctx,
    (forall m, cx_mu (prep m) = m) /\
    forall msg, exists hs,
      sign_prepare p randomized seckey msg seed = (prep (sign_mu seckey msg), hs).
Proof.
  destruct randomized.
  - eexists (fun m => mk_sign_ctx _ m _ _ _ _). split; [reflexivity|].
    intros msg0. eexists. unfold sign_prepare. cbv zeta.
    rewrite squeeze_new2. cbv iota beta. reflexivity.
  - eexists (fun m => mk_sign_ctx _ m (shake256 (subspan 32 32 seckey ++ m) 64) _ _ _).
    split; [reflexivity|].
    intros msg0. eexists. unfold sign_prepare. cbv zeta.
    rewrite squeeze_new2. cbv iota beta.
    rewrite squeeze_after_reset. reflexivity.
Qed.

(** C9: [sign] and [verify] ask nothing of the length of the message.  The
    message is only absorbed, after tr, into the SHAKE256 stream of μ: for
    the empty message μ is SHAKE256(tr, 64), and two messages with the same
    μ are signed and verified alike. *)
Theorem empty_message_is_valid (p : params) (randomized : bool) (fuel : nat)
    (seckey pubkey seed sig : bytes) :
  cx_mu (fst (sign_prepare p randomized seckey [] seed))
  = shake256 (subspan 64 32 seckey) 64 /\
  vw_mu (verify_compute p pubkey [] sig) = shake256 (shake256 pubkey 32) 64 /\
  (forall msg, cx_mu (fst (sign_prepare p randomized seckey msg seed))
               = shake256 (subspan 64 32 seckey ++ msg) 64) /\
  (forall msg, vw_mu (verify_compute p pubkey msg sig)
               = shake256 (shake256 pubkey 32 ++ msg) 64) /\
  (forall msg msg', sign_mu seckey msg = sign_mu seckey msg' ->
     sign p randomized fuel seckey msg seed = sign p randomized fuel seckey msg' seed) /\
  (forall msg msg', verify_mu pubkey msg = verify_mu pubkey msg' ->
     verify p pubkey msg sig = verify p pubkey msg' sig).
Proof.
  destruct (sign_prepare_mu p randomized seckey [] seed) as (prep & Hmu & Hprep).
  assert (Hs : forall msg, cx_mu (fst (sign_prepare p randomized seckey msg seed))
                           = shake256 (subspan 64 32 seckey ++ msg) 64).
  { intros msg. destruct (Hprep msg) as (hs & ->). cbn [fst]. apply Hmu. }
  assert (Hv : forall msg, vw_mu (verify_compute p pubkey msg sig)
                           = shake256 (shake256 pubkey 32 ++ msg) 64).
  { intros msg. apply (verify_compute_fields p pubkey msg sig). }
  repeat split.
  - rewrite Hs. now rewrite app_nil_r.
  - rewrite Hv. now rewrite app_nil_r.
  - exact Hs.
  - exact Hv.
  - intros msg msg' H. unfold sign.
    destruct (Hprep msg) as (hs & ->). destruct (Hprep msg') as (hs' & ->).
    rewrite H. now rewrite (sign_loop_from_init p _ fuel hs hs').
  - intros msg msg' H. unfold verify, verify_compute. cbv zeta.
    rewrite !squeeze_new. cbv iota beta.
    rewrite !(squeeze_new2 (shake256 pubkey 32)). cbv iota beta.
    unfold verify_mu in H. rewrite H. reflexivity.
Qed.

(** ** Key generation followed by signing *)

Lemma subspan_app_mid (a b c : bytes) (off len : Z) :
  Z.to_nat off = List.length a -> Z.to_nat len = List.length b ->
  subspan off len (a ++ b ++ c) = b.
Proof.
  intros Ha Hb. unfold subspan.
  rewrite (skipn_app_exact a) by now symmetry.
  now apply firstn_app_exact.
Qed.

Lemma check_keygen_params_cases (p : params) :
  check_keygen_params p = true ->
  (k p = 4 /\ l p = 4 /\ d p = 13 /\ η p = 2) \/
  (k p = 6 /\ l p = 5 /\ d p = 13 /\ η p = 4) \/
  (k p = 8 /\ l p = 7 /\ d p = 13 /\ η p = 2).
Proof.
  unfold check_keygen_params. cbv zeta. cbn [k l d η dilithium2 dilithium3 dilithium5].
  rewrite !orb_true_iff, !andb_true_iff, !Z.eqb_eq. tauto.
Qed.

(** X11: what [sign] reads of the s1 and s2 that [keygen] wrote.  The public
    key packs the t1 of t = A·s1 + s2; the secret key that [sign] unpacks by
    a ← η − a holds s1 and s2 after [xorBinaryStrings], so [sign] computes
    with η − unpack(pack(m(η − s1))) and η − unpack(pack(m(η − s2))), m the
    mask of [keygen]. *)
Theorem sign_reads_masked_secrets (p : params) (rnd : entropy)
    (randomized : bool) (seed msg sd : bytes) :
  check_keygen_params p = true ->
  (forall n v, List.length (encode n (bit_width (u32 (2 * η p))) v)
               = Z.to_nat (n * bit_width (u32 (2 * η p)) * 32)) ->
  let MaskStr := generateRandomBinaryString (η p) rnd in
  let eta_bw := bit_width (u32 (2 * η p)) in
  let unpack n v := sub_from_x n (η p) (decode n eta_bw (encode n eta_bw v)) in
  let cx := fst (sign_prepare p randomized (snd (keygen p rnd seed)) msg sd) in
  fst (keygen p rnd seed)
  = keygen_rho seed ++ encode (k p) (bit_width Q - d p) (keygen_t1 p seed) /\
  cx_s1 cx
  = polyvec_ntt (l p)
      (unpack (l p) (xorBinaryStrings MaskStr (sub_from_x (l p) (η p) (keygen_s1 p seed)))) /\
  cx_s2 cx
  = polyvec_ntt (k p)
      (unpack (k p) (xorBinaryStrings MaskStr (sub_from_x (k p) (η p) (keygen_s2 p seed)))).
Proof.
  intros Hp Henc MaskStr eta_bw unpack cx.
  unfold cx, unpack. rewrite keygen_unfold. cbn [fst snd]. fold MaskStr. fold eta_bw.
  split; [reflexivity|].
  set (e1 := encode (l p) eta_bw _). set (e2 := encode (k p) eta_bw _).
  set (e3 := encode (k p) (d p) _).
  assert (H1 : List.length e1 = Z.to_nat (l p * eta_bw * 32)) by apply Henc.
  assert (H2 : List.length e2 = Z.to_nat (k p * eta_bw * 32)) by apply Henc.
  assert (Hnn : 0 <= l p * eta_bw * 32 /\ 0 <= k p * eta_bw * 32).
  { unfold eta_bw.
    destruct (check_keygen_params_cases p Hp) as [H | [H | H]];
      destruct H as (-> & -> & _ & ->); vm_compute; split; discriminate. }
  unfold sign_prepare. cbv zeta. rewrite squeeze_new2. cbv iota beta.
  fold eta_bw.
  assert (S1 : subspan (0 + 32 + 32 + 32)
                 (0 + 32 + 32 + 32 + l p * eta_bw * 32 - (0 + 32 + 32 + 32))
                 (keygen_rho seed ++ keygen_key seed ++ keygen_tr p seed ++ e1 ++ e2 ++ e3)
               = e1).
  { replace (keygen_rho seed ++ keygen_key seed ++ keygen_tr p seed ++ e1 ++ e2 ++ e3)
      with ((keygen_rho seed ++ keygen_key seed ++ keygen_tr p seed) ++ e1 ++ e2 ++ e3)
      by now rewrite <- !app_assoc.
    apply subspan_app_mid.
    - rewrite !length_app, keygen_rho_length, keygen_key_length.
      unfold keygen_tr. rewrite shake256_length. reflexivity.
    - rewrite H1. f_equal. lia. }
  assert (S2 : subspan (0 + 32 + 32 + 32 + l p * eta_bw * 32)
                 (0 + 32 + 32 + 32 + l p * eta_bw * 32 + k p * eta_bw * 32
                  - (0 + 32 + 32 + 32 + l p * eta_bw * 32))
                 (keygen_rho seed ++ keygen_key seed ++ keygen_tr p seed ++ e1 ++ e2 ++ e3)
               = e2).
  { replace (keygen_rho seed ++ keygen_key seed ++ keygen_tr p seed ++ e1 ++ e2 ++ e3)
      with ((keygen_rho seed ++ keygen_key seed ++ keygen_tr p seed ++ e1) ++ e2 ++ e3)
      by now rewrite <- !app_assoc.
    apply subspan_app_mid.
    - rewrite !length_app, keygen_rho_length, keygen_key_length, H1.
      unfold keygen_tr. rewrite shake256_length. lia.
    - rewrite H2. f_equal. lia. }
  rewrite S1, S2.
  destruct randomized.
  - cbn [fst cx_s1 cx_s2]. split; reflexivity.
  - rewrite squeeze_after_reset. cbn [fst cx_s1 cx_s2]. split; reflexivity.
Qed.

End SignerFacts.

(** ** The statements at the small instance *)

Lemma small_always_rejects (mask : Z) (cx : sign_ctx) (st : sign_state) :
  has_signed (@sign_body (small_primitives (Q - 1) mask) dilithium2 cx st) = false.
Proof. reflexivity. Qed.

Lemma verify_accepts_iff_witness :
  let P := small_primitives 0 0 in
  let pubkey := repeat 0 1312 in
  let sig := repeat 0 2420 in
  check_verify_params dilithium2 = true /\
  Z.of_nat (List.length sig) = sig_len 4 4 (2 ^ 17) 80 /\
  (verify dilithium2 pubkey [] sig = true <->
     fst (sig_hints dilithium2 sig) = false /\
     infinity_norm 4 (sig_z dilithium2 sig) < 2 ^ 17 - 78 /\
     count_1s 4 (snd (sig_hints dilithium2 sig)) <= 80 /\
     shake256 (verify_mu pubkey []
               ++ encode 4 (w1_bw dilithium2)
                    (vw_w1 (verify_compute dilithium2 pubkey [] sig))) 32
     = sig_c_tilde sig).
Proof.
  intros P pubkey sig. split; [reflexivity|]. split; [reflexivity|].
  apply (verify_accepts_iff dilithium2 pubkey [] sig); reflexivity.
Defined.

Lemma sign_iteration_accepted_iff_witness :
  let P := small_primitives 0 0 in
  let cx := mk_sign_ctx [] [] [] [] [] [] in
  let st := sign_init dilithium2 shake256_new in
  check_signing_params dilithium2 = true /\
  has_signed st = false /\
  (has_signed (sign_body dilithium2 cx st) = true <->
     infinity_norm 4 (cd_z (sign_candidate dilithium2 cx st)) < 2 ^ 17 - 78 /\
     infinity_norm 4 (cd_r0 (sign_candidate dilithium2 cx st)) < (Q - 1) / 88 - 78 /\
     infinity_norm 4 (cd_h1 (sign_candidate dilithium2 cx st)) < (Q - 1) / 88 /\
     count_1s 4 (cd_h (sign_candidate dilithium2 cx st)) <= 80).
Proof.
  intros P cx st. split; [reflexivity|]. split; [reflexivity|].
  apply (sign_iteration_accepted_iff dilithium2 cx st); reflexivity.
Defined.

Lemma sign_deterministic_witness :
  let P := small_primitives 0 0 in
  let seckey := repeat 0 2528 in
  sign dilithium2 false 1 seckey [] [] <> None /\
  sign dilithium2 false 3 seckey [] [7] <> None /\
  sign dilithium2 false 1 seckey [] [] = sign dilithium2 false 3 seckey [] [7].
Proof.
  intros P seckey.
  assert (H1 : sign dilithium2 false 1 seckey [] [] <> None)
    by (vm_compute; discriminate).
  assert (H2 : sign dilithium2 false 3 seckey [] [7] <> None)
    by (vm_compute; discriminate).
  split; [exact H1|]. split; [exact H2|].
  exact (sign_deterministic dilithium2 seckey [] 1 3 [] [7] H1 H2).
Defined.

Lemma kappa_advances_every_iteration_witness :
  let P := small_primitives 0 0 in
  let cx := mk_sign_ctx [] [] [] [] [] [] in
  let st := sign_init dilithium2 shake256_new in
  Z.of_nat 3 * 4 < 2 ^ 16 /\ 0 <= 4 /\
  kappa (sign_body dilithium2 cx st) = (kappa st + 4) mod 2 ^ 16 /\
  kappa (sign_iter dilithium2 cx (sign_init dilithium2 shake256_new) 3) = Z.of_nat 3 * 4.
Proof.
  intros P cx st. split; [reflexivity|]. split; [discriminate|].
  apply (kappa_advances_every_iteration dilithium2 cx shake256_new st 3);
    [reflexivity | discriminate].
Defined.

(** C6, as the claim has it, fails: with l = 4 and every candidate rejected,
    the loop is still running after 16384 iterations, and iteration 16384
    starts with the nonce 0, not 16384·4 = 65536. *)
Lemma nonce_wraps_after_16384_iterations :
  let P := small_primitives (Q - 1) 0 in
  let cx := fst (sign_prepare dilithium2 false (repeat 0 2528) [] []) in
  let st0 := sign_init dilithium2 (snd (sign_prepare dilithium2 false (repeat 0 2528) [] [])) in
  sign_loop dilithium2 cx 16384 st0 = None /\
  kappa (sign_iter dilithium2 cx st0 16384) = 0 /\
  kappa (sign_iter dilithium2 cx st0 16384) <> Z.of_nat 16384 * l dilithium2.
Proof.
  intros P cx st0.
  assert (Hk : kappa (sign_iter dilithium2 cx st0 16384) = 0).
  { unfold st0. rewrite kappa_sign_iter_init. vm_compute. reflexivity. }
  split; [|split].
  - apply sign_loop_rejecting. intros [|j] _; [reflexivity|].
    rewrite sign_iter_S. apply small_always_rejects.
  - exact Hk.
  - rewrite Hk. vm_compute. discriminate.
Qed.

Lemma verify_failure_is_false_witness :
  let P := small_primitives (Q - 1) 0 in
  let pubkey := repeat 0 1312 in
  let sig := repeat 0 2420 in
  2 ^ 17 - 78 <= infinity_norm 4 (sig_z dilithium2 sig) /\
  verify dilithium2 pubkey [] sig = false.
Proof.
  intros P pubkey sig.
  assert (H : 2 ^ 17 - 78 <= infinity_norm 4 (sig_z dilithium2 sig))
    by (vm_compute; discriminate).
  split; [exact H|].
  apply (verify_failure_is_false dilithium2 pubkey [] sig);
    [reflexivity | reflexivity | right; left; exact H].
Defined.

Lemma kappa_is_16_bit_counter_witness :
  let P := small_primitives (Q - 1) 0 in
  let cx := mk_sign_ctx [] [] [] [] [] [] in
  let nonce n := kappa (sign_iter dilithium2 cx (sign_init dilithium2 shake256_new) n) in
  0 < l dilithium2 /\
  nonce 16384%nat = (Z.of_nat 16384 * 4) mod 2 ^ 16 /\
  (2 ^ 16 <= Z.of_nat 16384 * 4 ->
   exists (j : nat) (b : Z),
     (j < 16384)%nat /\ 0 <= b < 4 /\ mask_nonce (nonce 16384%nat) 0 = mask_nonce (nonce j) b).
Proof.
  intros P cx nonce. split; [reflexivity|].
  apply (kappa_is_16_bit_counter dilithium2 cx shake256_new 16384). reflexivity.
Defined.

Lemma sign_reads_masked_secrets_witness :
  let P := small_primitives 0 1 in
  let seed := repeat 0 32 in
  let seckey := snd (keygen dilithium2 tt seed) in
  let cx := fst (sign_prepare dilithium2 false seckey [] []) in
  let unpack n v := sub_from_x n 2 (decode n 3 (encode n 3 v)) in
  check_keygen_params dilithium2 = true /\
  cx_s1 cx
  = polyvec_ntt 4
      (unpack 4 (xorBinaryStrings (generateRandomBinaryString 2 tt)
                   (sub_from_x 4 2 (keygen_s1 dilithium2 seed)))).
Proof.
  intros P seed seckey cx unpack. split; [reflexivity|].
  apply (@sign_reads_masked_secrets P dilithium2 tt false seed [] []);
    [reflexivity | intros n v; apply pad_to_length].
Defined.

(** * The three routines together *)

Section SignerCompositions.
Context {P : Primitives}.

Lemma check_signing_keygen (p : params) :
  check_signing_params p = true -> check_keygen_params p = true.
Proof.
  intros H. destruct (check_signing_params_cases p H) as [-> | [-> | ->]]; reflexivity.
Qed.

Lemma check_signing_verify (p : params) :
  check_signing_params p = true -> check_verify_params p = true.
Proof.
  intros H. destruct (check_signing_params_cases p H) as [-> | [-> | ->]]; reflexivity.
Qed.

Lemma sign_candidate_at (p : params) (cx : sign_ctx) (st : sign_state) :
  sign_candidate p cx st = candidate_at p cx (kappa st).
Proof.
  unfold candidate_at, sign_candidate. cbv zeta.
  rewrite !squeeze_after_reset. reflexivity.
Qed.

Lemma has_signed_iff_ok (p : params) (cx : sign_ctx) (st : sign_state) :
  check_signing_params p = true ->
  has_signed (sign_body p cx st) = true <-> candidate_ok p (candidate_at p cx (kappa st)).
Proof.
  intros Hp. destruct (signing_bounds p Hp) as (B0 & B1 & B2).
  rewrite has_signed_sign_body, B0, B1, B2, sign_candidate_at. unfold candidate_ok.
  rewrite andb_true_iff, !negb_true_iff, !orb_false_iff, !Z.leb_gt, Z.ltb_ge.
  tauto.
Qed.

Lemma candidate_hash_out_length (p : params) (cx : sign_ctx) (κ : Z) :
  List.length (cd_hash_out (candidate_at p cx κ)) = 32%nat.
Proof.
  unfold candidate_at, sign_candidate. cbv zeta.
  rewrite squeeze_after_reset. cbn [cd_hash_out]. apply shake256_length.
Qed.

(** X1: the public key and the ρ, K and tr fields of the secret key depend
    on the seed alone; the randomness of the mask generator reaches neither. *)
Theorem keygen_public_part_ignores_mask (p : params) (rnd rnd' : entropy) (seed : bytes) :
  fst (keygen p rnd seed) = fst (keygen p rnd' seed) /\
  firstn 96 (snd (keygen p rnd seed)) = firstn 96 (snd (keygen p rnd' seed)) /\
  firstn 96 (snd (keygen p rnd seed))
  = firstn 32 (shake256 seed 128) ++ skipn 96 (shake256 seed 128)
      ++ shake256 (fst (keygen p rnd seed)) 32.
Proof.
  rewrite !keygen_unfold. cbn [fst snd].
  assert (H : forall x, firstn 96 (keygen_rho seed ++ keygen_key seed ++ keygen_tr p seed ++ x)
                        = keygen_rho seed ++ keygen_key seed ++ keygen_tr p seed).
  { intros x.
    replace (keygen_rho seed ++ keygen_key seed ++ keygen_tr p seed ++ x)
      with ((keygen_rho seed ++ keygen_key seed ++ keygen_tr p seed) ++ x)
      by now rewrite <- !app_assoc.
    apply firstn_app_exact.
    rewrite !length_app, keygen_rho_length, keygen_key_length.
    unfold keygen_tr. now rewrite shake256_length. }
  rewrite !H. repeat split.
Qed.

Lemma keygen_keys_agree (p : params) (rnd : entropy) (randomized : bool)
    (seed msg sd sig : bytes) :
  let pk := fst (keygen p rnd seed) in
  let sk := snd (keygen p rnd seed) in
  let cx := fst (sign_prepare p randomized sk msg sd) in
  subspan 0 32 sk = subspan 0 32 pk /\
  cx_A cx = expand_a (k p) (l p) (subspan 0 32 pk) /\
  subspan 64 32 sk = shake256 pk 32 /\
  cx_mu cx = vw_mu (verify_compute p pk msg sig).
Proof.
  intros pk sk cx.
  assert (Hrho : subspan 0 32 sk = keygen_rho seed).
  { unfold sk. rewrite keygen_unfold. cbn [snd]. unfold subspan.
    change (skipn (Z.to_nat 0) ?x) with x.
    apply firstn_app_exact, keygen_rho_length. }
  assert (Hrho' : subspan 0 32 pk = keygen_rho seed).
  { unfold pk. rewrite keygen_unfold. cbn [fst]. unfold subspan.
    change (skipn (Z.to_nat 0) ?x) with x.
    apply firstn_app_exact, keygen_rho_length. }
  assert (Htr : subspan 64 32 sk = shake256 pk 32).
  { unfold sk, pk. rewrite keygen_unfold. cbn [fst snd].
    fold (keygen_tr p seed).
    rewrite (app_assoc (keygen_rho seed)).
    apply subspan_app_mid.
    - now rewrite length_app, keygen_rho_length, keygen_key_length.
    - unfold keygen_tr. now rewrite shake256_length. }
  assert (Hmu : cx_mu cx = shake256 (subspan 64 32 sk ++ msg) 64).
  { unfold cx. destruct (sign_prepare_mu p randomized sk msg sd) as (prep & Hm & Hprep).
    destruct (Hprep msg) as (hs & ->). cbn [fst]. apply Hm. }
  assert (HA : cx_A cx = expand_a (k p) (l p) (subspan 0 32 sk)).
  { unfold cx, sign_prepare. cbv zeta. rewrite squeeze_new2. cbv iota beta.
    destruct randomized; [|rewrite squeeze_after_reset]; reflexivity. }
  split; [congruence|]. split; [rewrite HA; congruence|]. split; [exact Htr|].
  rewrite Hmu, Htr.
  symmetry. apply (verify_compute_fields p pk msg sig).
Qed.


(** X3: a signature that [sign] returns is the serialization
    c̃ ‖ pack(γ1 − z) ‖ hints(h) of the first candidate that meets the four
    bounds.  At least one iteration has run; iteration n draws its mask with
    nonce (n·l) mod 2^16, and of the state it starts from nothing else
    enters its candidate: every earlier candidate violated a bound and has
    left no trace in the signature. *)
Theorem sign_returns_first_good_candidate (p : params) (randomized : bool)
    (fuel : nat) (seckey msg seed sig : bytes) :
  check_signing_params p = true ->
  sign p randomized fuel seckey msg seed = Some sig ->
  let cx := fst (sign_prepare p randomized seckey msg seed) in
  let cand n := candidate_at p cx ((Z.of_nat n * l p) mod 2 ^ 16) in
  exists n : nat,
    (n < fuel)%nat /\
    candidate_ok p (cand n) /\
    (forall j, (j < n)%nat -> ~ candidate_ok p (cand j)) /\
    sig = cd_hash_out (cand n)
          ++ encode (l p) (bit_width (γ1 p)) (sub_from_x (l p) (γ1 p) (cd_z (cand n)))
          ++ encode_hint_bits (k p) (ω p) (cd_h (cand n)).
Proof.
  intros Hp Hsig cx cand.
  destruct (sign_returns_first_accepted p randomized fuel seckey msg seed sig Hsig)
    as (m & Hm & Hacc & Hrej & ->).
  fold cx in Hacc, Hrej |- *.
  set (st0 := sign_init p (snd (sign_prepare p randomized seckey msg seed))) in *.
  assert (Hk : forall n, kappa (sign_iter p cx st0 n) = (Z.of_nat n * l p) mod 2 ^ 16)
    by (intros n; apply kappa_sign_iter_init).
  destruct m as [|n]; [discriminate Hacc|].
  exists n. split; [lia|].
  rewrite sign_iter_S in Hacc |- *.
  split; [|split].
  - apply has_signed_iff_ok in Hacc; [|exact Hp]. now rewrite Hk in Hacc.
  - intros j Hj Hok. specialize (Hrej (S j) ltac:(lia)).
    rewrite sign_iter_S in Hrej.
    assert (has_signed (sign_body p cx (sign_iter p cx st0 j)) = true); [|congruence].
    apply has_signed_iff_ok; [exact Hp|]. now rewrite Hk.
  - unfold sign_serialize.
    destruct (sign_body_candidate p cx (sign_iter p cx st0 n)) as (-> & -> & ->).
    rewrite sign_candidate_at, Hk. reflexivity.
Qed.

(** ** Lengths and fields *)

(** X4: when [encode] fills the spans it is given (n·bw·32 bytes for n
    polynomials of bw bits a coefficient), the pieces [keygen] writes tile
    its two output spans exactly: the public key has [pub_key_len] bytes and
    the secret key [sec_key_len] bytes. *)
Theorem keygen_key_lengths (p : params) (rnd : entropy) (seed : bytes) :
  check_keygen_params p = true ->
  (forall n bw v, List.length (encode n bw v) = Z.to_nat (n * bw * 32)) ->
  Z.of_nat (List.length (fst (keygen p rnd seed))) = pub_key_len (k p) (d p) /\
  Z.of_nat (List.length (snd (keygen p rnd seed))) = sec_key_len (k p) (l p) (η p) (d p).
Proof.
  intros Hp Henc. rewrite keygen_unfold. cbn [fst snd].
  rewrite !length_app, !Henc, keygen_rho_length, keygen_key_length.
  unfold keygen_tr. rewrite shake256_length.
  unfold pub_key_len, sec_key_len. cbv zeta.
  destruct (check_keygen_params_cases p Hp) as [H | [H | H]];
    destruct H as (-> & -> & -> & ->); split; reflexivity.
Qed.

Lemma signing_sizes_nonneg (p : params) :
  check_signing_params p = true ->
  0 <= 32 * l p * bit_width (γ1 p) /\ 0 <= ω p + k p.
Proof.
  intros H. destruct (check_signing_params_cases p H) as [-> | [-> | ->]];
    vm_compute; split; discriminate.
Qed.

(** The signature a loop state serializes to, as [verify] cuts it up. *)
Lemma serialize_fields (p : params) (st : sign_state) :
  check_signing_params p = true ->
  List.length (hash_out st) = 32%nat ->
  List.length (encode (l p) (bit_width (γ1 p)) (sub_from_x (l p) (γ1 p) (z st)))
  = Z.to_nat (32 * l p * bit_width (γ1 p)) ->
  List.length (encode_hint_bits (k p) (ω p) (h st)) = Z.to_nat (ω p + k p) ->
  let sig := sign_serialize p st in
  Z.of_nat (List.length sig) = sig_len (k p) (l p) (γ1 p) (ω p) /\
  sig_c_tilde sig = hash_out st /\
  sig_z p sig
  = sub_from_x (l p) (γ1 p)
      (decode (l p) (bit_width (γ1 p))
         (encode (l p) (bit_width (γ1 p)) (sub_from_x (l p) (γ1 p) (z st)))) /\
  sig_hints p sig = decode_hint_bits (k p) (ω p) (encode_hint_bits (k p) (ω p) (h st)).
Proof.
  intros Hp Hc Hz Hh sig.
  destruct (signing_sizes_nonneg p Hp) as (Nz & Nh).
  unfold sig, sign_serialize. cbv zeta.
  set (ez := encode (l p) _ _) in *. set (eh := encode_hint_bits _ _ _) in *.
  split; [|split; [|split]].
  - rewrite !length_app, Hc, Hz, Hh. unfold sig_len. lia.
  - unfold sig_c_tilde, subspan. change (skipn (Z.to_nat 0) ?x) with x.
    now apply firstn_app_exact.
  - unfold sig_z. f_equal. f_equal. apply subspan_app_mid; [now rewrite Hc | now rewrite Hz].
  - unfold sig_hints. cbv zeta. f_equal.
    replace (hash_out st ++ ez ++ eh) with ((hash_out st ++ ez) ++ eh ++ [])
      by now rewrite app_nil_r, <- app_assoc.
    apply subspan_app_mid.
    + rewrite length_app, Hc, Hz. lia.
    + rewrite Hh. f_equal. unfold sig_len. lia.
Qed.

Lemma sign_body_hash_out_length (p : params) (cx : sign_ctx) (st : sign_state) :
  List.length (hash_out (sign_body p cx st)) = 32%nat.
Proof.
  destruct (sign_body_candidate p cx st) as (_ & _ & ->).
  rewrite sign_candidate_at. apply candidate_hash_out_length.
Qed.

(** X5: when [encode] and [encode_hint_bits] fill their spans, every
    signature [sign] returns has exactly [sig_len] bytes,
    32 + 32·l·gamma1_bw + ω + k. *)
Theorem sign_signature_length (p : params) (randomized : bool) (fuel : nat)
    (seckey msg seed sig : bytes) :
  check_signing_params p = true ->
  (forall n bw v, List.length (encode n bw v) = Z.to_nat (n * bw * 32)) ->
  (forall v, List.length (encode_hint_bits (k p) (ω p) v) = Z.to_nat (ω p + k p)) ->
  sign p randomized fuel seckey msg seed = Some sig ->
  Z.of_nat (List.length sig) = sig_len (k p) (l p) (γ1 p) (ω p).
Proof.
  intros Hp Henc Hh Hsig.
  destruct (sign_returns_first_accepted p randomized fuel seckey msg seed sig Hsig)
    as (m & _ & Hacc & _ & ->).
  destruct m as [|n]; [discriminate Hacc|].
  rewrite sign_iter_S.
  apply serialize_fields; [exact Hp | apply sign_body_hash_out_length | | apply Hh].
  rewrite Henc. f_equal. lia.
Qed.

(** X6: [verify] cuts a signature where [sign] joined it.  For the state an
    iteration leaves, the c̃ that [verify] reads from the serialized
    signature is the iteration's hash, its z is the unpacking of the packed
    γ1 − z, and its hints are the decoding of the encoded h. *)
Theorem verify_reads_signed_fields (p : params) (cx : sign_ctx) (st0 : sign_state) :
  check_signing_params p = true ->
  (forall n bw v, List.length (encode n bw v) = Z.to_nat (n * bw * 32)) ->
  (forall v, List.length (encode_hint_bits (k p) (ω p) v) = Z.to_nat (ω p + k p)) ->
  let st := sign_body p cx st0 in
  let sig := sign_serialize p st in
  let gamma1_bw := bit_width (γ1 p) in
  sig_c_tilde sig = hash_out st /\
  sig_z p sig
  = sub_from_x (l p) (γ1 p)
      (decode (l p) gamma1_bw (encode (l p) gamma1_bw (sub_from_x (l p) (γ1 p) (z st)))) /\
  sig_hints p sig = decode_hint_bits (k p) (ω p) (encode_hint_bits (k p) (ω p) (h st)).
Proof.
  intros Hp Henc Hh st sig gamma1_bw.
  apply (serialize_fields p st Hp); [apply sign_body_hash_out_length | | apply Hh].
  rewrite Henc. f_equal. lia.
Qed.

Lemma verify_serialized_iff (p : params) (cx : sign_ctx)
    (st0 : sign_state) (pubkey msg : bytes) :
  check_signing_params p = true ->
  has_signed (sign_body p cx st0) = true ->
  let st := sign_body p cx st0 in
  let sig := sign_serialize p st in
  let gamma1_bw := bit_width (γ1 p) in
  List.length (encode (l p) gamma1_bw (sub_from_x (l p) (γ1 p) (z st)))
  = Z.to_nat (32 * l p * gamma1_bw) ->
  List.length (encode_hint_bits (k p) (ω p) (h st)) = Z.to_nat (ω p + k p) ->
  sub_from_x (l p) (γ1 p)
    (decode (l p) gamma1_bw (encode (l p) gamma1_bw (sub_from_x (l p) (γ1 p) (z st))))
  = z st ->
  decode_hint_bits (k p) (ω p) (encode_hint_bits (k p) (ω p) (h st)) = (false, h st) ->
  verify p pubkey msg sig = true <->
    shake256 (verify_mu pubkey msg
              ++ encode (k p) (w1_bw p) (vw_w1 (verify_compute p pubkey msg sig))) 32
    = hash_out st.
Proof.
  intros Hp Hacc st sig gamma1_bw Lz Lh Rz Rh.
  destruct (serialize_fields p st Hp (sign_body_hash_out_length p cx st0) Lz Lh)
    as (Hlen & Hc & Hz & Hh).
  fold sig in Hlen, Hc, Hz, Hh. fold gamma1_bw in Hz.
  rewrite (verify_true_iff p pubkey msg sig (check_signing_verify p Hp) Hlen).
  rewrite Hc, Hz, Hh, Rz, Rh. cbn [fst snd].
  apply has_signed_iff_ok in Hacc; [|exact Hp].
  rewrite <- sign_candidate_at in Hacc.
  destruct Hacc as (Hn & _ & _ & Hw).
  destruct (sign_body_candidate p cx st0) as (Ez & Eh & _).
  fold st in Ez, Eh. rewrite Ez, Eh.
  split.
  - intros (_ & _ & _ & He). exact He.
  - intros He. repeat split; assumption.
Qed.

(** X7: verification of what [sign] serializes comes down to the hash.  If an
    iteration is accepted and the packing of its z and the encoding of its
    hints read back what was written, then on the serialized signature the
    decoding, norm and weight checks of [verify] pass for every public key
    and message, and [verify] returns true exactly when the hash it
    recomputes is the c̃ of the iteration. *)
Theorem verify_of_signed_is_hash_check (p : params) (cx : sign_ctx)
    (st0 : sign_state) (pubkey msg : bytes) :
  check_signing_params p = true ->
  has_signed (sign_body p cx st0) = true ->
  let st := sign_body p cx st0 in
  let sig := sign_serialize p st in
  let gamma1_bw := bit_width (γ1 p) in
  List.length (encode (l p) gamma1_bw (sub_from_x (l p) (γ1 p) (z st)))
  = Z.to_nat (32 * l p * gamma1_bw) ->
  List.length (encode_hint_bits (k p) (ω p) (h st)) = Z.to_nat (ω p + k p) ->
  sub_from_x (l p) (γ1 p)
    (decode (l p) gamma1_bw (encode (l p) gamma1_bw (sub_from_x (l p) (γ1 p) (z st))))
  = z st ->
  decode_hint_bits (k p) (ω p) (encode_hint_bits (k p) (ω p) (h st)) = (false, h st) ->
  verify p pubkey msg sig = true <->
    shake256 (verify_mu pubkey msg
              ++ encode (k p) (w1_bw p) (vw_w1 (verify_compute p pubkey msg sig))) 32
    = hash_out st.
Proof. apply verify_serialized_iff. Qed.

(** The c̃ of an iteration is the hash of μ and the packed w1. *)
Lemma sign_body_hash_out (p : params) (cx : sign_ctx) (st0 : sign_state) :
  hash_out (sign_body p cx st0)
  = shake256 (cx_mu cx ++ encode (k p) (w1_bw p) (candidate_w1 p cx (kappa st0))) 32.
Proof.
  destruct (sign_body_candidate p cx st0) as (_ & _ & ->).
  unfold sign_candidate, candidate_w1, w1_bw. cbv zeta.
  rewrite squeeze_after_reset. reflexivity.
Qed.

(** X10: key generation, signing and verification in a row.  Take the keys
    of one [keygen] call, an accepted iteration of [sign] under the secret
    key and the signature it serializes.  If packing and hint encoding read
    back what the iteration wrote, [verify] under the public key and the same
    message returns true exactly when the hash of μ and its packed w1′ is
    the hash of the same μ and the signer's packed w1; it returns true
    whenever the two w1 pack to the same bytes. *)
Theorem keygen_sign_verify_up_to_w1 (p : params) (rnd : entropy)
    (randomized : bool) (seed msg sd : bytes) (st0 : sign_state) :
  let pk := fst (keygen p rnd seed) in
  let sk := snd (keygen p rnd seed) in
  let cx := fst (sign_prepare p randomized sk msg sd) in
  let st := sign_body p cx st0 in
  let sig := sign_serialize p st in
  let gamma1_bw := bit_width (γ1 p) in
  let mu := verify_mu pk msg in
  let w1 := candidate_w1 p cx (kappa st0) in
  let w1' := vw_w1 (verify_compute p pk msg sig) in
  check_signing_params p = true ->
  has_signed st = true ->
  List.length (encode (l p) gamma1_bw (sub_from_x (l p) (γ1 p) (z st)))
  = Z.to_nat (32 * l p * gamma1_bw) ->
  List.length (encode_hint_bits (k p) (ω p) (h st)) = Z.to_nat (ω p + k p) ->
  sub_from_x (l p) (γ1 p)
    (decode (l p) gamma1_bw (encode (l p) gamma1_bw (sub_from_x (l p) (γ1 p) (z st))))
  = z st ->
  decode_hint_bits (k p) (ω p) (encode_hint_bits (k p) (ω p) (h st)) = (false, h st) ->
  (verify p pk msg sig = true <->
     shake256 (mu ++ encode (k p) (w1_bw p) w1') 32
     = shake256 (mu ++ encode (k p) (w1_bw p) w1) 32) /\
  (encode (k p) (w1_bw p) w1' = encode (k p) (w1_bw p) w1 -> verify p pk msg sig = true).
Proof.
  intros pk sk cx st sig gamma1_bw mu w1 w1' Hp Hacc Lz Lh Rz Rh.
  pose proof (verify_serialized_iff p cx st0 pk msg Hp Hacc Lz Lh Rz Rh) as Hv.
  fold st sig w1' mu in Hv.
  assert (Hmu : cx_mu cx = mu).
  { destruct (keygen_keys_agree p rnd randomized seed msg sd sig) as (_ & _ & _ & H).
    fold pk sk cx in H. rewrite H. apply (verify_compute_fields p pk msg sig). }
  assert (Hh : hash_out st = shake256 (mu ++ encode (k p) (w1_bw p) w1) 32).
  { unfold st. rewrite sign_body_hash_out, Hmu. reflexivity. }
  rewrite Hh in Hv. split; [exact Hv|].
  intros He. apply Hv. now rewrite He.
Qed.

(** ** What [sign] reads of the secret key *)

Lemma subspan_head (a x : bytes) : List.length a = 32%nat -> subspan 0 32 (a ++ x) = a.
Proof.
  intros H. unfold subspan. change (skipn (Z.to_nat 0) ?y) with y.
  now apply firstn_app_exact.
Qed.

Lemma subspan_past_key (a K K' b : bytes) (off len : Z) :
  List.length a = 32%nat -> List.length K = 32%nat -> List.length K' = 32%nat ->
  64 <= off ->
  subspan off len (a ++ K ++ b) = subspan off len (a ++ K' ++ b).
Proof.
  intros Ha HK HK' Hoff. unfold subspan. f_equal.
  assert (H : forall X : bytes, List.length X = 32%nat ->
            skipn (Z.to_nat off) (a ++ X ++ b) = skipn (Z.to_nat off - 64) b).
  { intros X HX. rewrite !skipn_app, Ha, HX.
    rewrite (skipn_all2 a) by lia. rewrite (skipn_all2 X) by lia.
    cbn [app]. f_equal. lia. }
  now rewrite (H K HK), (H K' HK').
Qed.

Lemma keygen_sizes_nonneg (p : params) :
  check_keygen_params p = true ->
  0 <= l p * bit_width (u32 (2 * η p)) * 32 /\
  0 <= k p * bit_width (u32 (2 * η p)) * 32 /\
  0 <= k p * d p * 32.
Proof.
  intros Hp. destruct (check_keygen_params_cases p Hp) as [H | [H | H]];
    destruct H as (-> & -> & -> & ->); vm_compute; repeat split; discriminate.
Qed.

(** X8: where ρ′ comes from.  In randomized mode ρ′ is the seed of the caller
    and the K field of the secret key is never read: two secret keys that
    differ in K alone give the same signature.  In deterministic mode ρ′ is
    SHAKE256(K ‖ μ, 64). *)
Theorem sign_rho_prime_by_mode (p : params) (fuel : nat)
    (a K K' b msg seed : bytes) :
  check_signing_params p = true ->
  List.length a = 32%nat -> List.length K = 32%nat -> List.length K' = 32%nat ->
  cx_rho_prime (fst (sign_prepare p true (a ++ K ++ b) msg seed)) = seed /\
  sign p true fuel (a ++ K ++ b) msg seed = sign p true fuel (a ++ K' ++ b) msg seed /\
  cx_rho_prime (fst (sign_prepare p false (a ++ K ++ b) msg seed))
  = shake256 (K ++ sign_mu (a ++ K ++ b) msg) 64.
Proof.
  intros Hp Ha HK HK'.
  destruct (keygen_sizes_nonneg p (check_signing_keygen p Hp)) as (N1 & N2 & N3).
  split; [|split].
  - unfold sign_prepare. cbv zeta. rewrite squeeze_new2. reflexivity.
  - unfold sign. replace (sign_prepare p true (a ++ K' ++ b) msg seed)
      with (sign_prepare p true (a ++ K ++ b) msg seed); [reflexivity|].
    unfold sign_prepare. cbv zeta.
    rewrite !squeeze_new2. cbv iota beta.
    rewrite !subspan_head by assumption.
    rewrite !(subspan_past_key a K K' b) by (assumption || lia).
    reflexivity.
  - unfold sign_prepare. cbv zeta. rewrite squeeze_new2. cbv iota beta.
    rewrite squeeze_after_reset. cbn [fst cx_rho_prime].
    unfold sign_mu. f_equal. f_equal.
    apply subspan_app_mid; [rewrite Ha | rewrite HK]; reflexivity.
Qed.

(** X9: of the secret key that [keygen] returns, [sign] reads K as it was
    drawn and t0 through packing and unpacking alone: the mask that
    [keygen] puts on s1 and s2 does not touch them. *)
Theorem sign_reads_unmasked_t0 (p : params) (rnd : entropy)
    (randomized : bool) (seed msg sd : bytes) :
  check_keygen_params p = true ->
  (forall n bw v, List.length (encode n bw v) = Z.to_nat (n * bw * 32)) ->
  let sk := snd (keygen p rnd seed) in
  let t0_rng := 2 ^ (d p - 1) mod 2 ^ 32 in
  subspan 32 32 sk = skipn 96 (shake256 seed 128) /\
  cx_t0 (fst (sign_prepare p randomized sk msg sd))
  = polyvec_ntt (k p)
      (sub_from_x (k p) t0_rng
         (decode (k p) (d p)
            (encode (k p) (d p) (sub_from_x (k p) t0_rng (keygen_t0 p seed))))).
Proof.
  intros Hp Henc sk t0_rng.
  destruct (keygen_sizes_nonneg p Hp) as (N1 & N2 & N3).
  unfold sk, t0_rng. rewrite keygen_unfold. cbn [snd]. cbv zeta.
  set (eta_bw := bit_width (u32 (2 * η p))) in *.
  set (e1 := encode (l p) eta_bw _). set (e2 := encode (k p) eta_bw _).
  set (e3 := encode (k p) (d p) _).
  assert (H1 : List.length e1 = Z.to_nat (l p * eta_bw * 32)) by apply Henc.
  assert (H2 : List.length e2 = Z.to_nat (k p * eta_bw * 32)) by apply Henc.
  assert (H3 : List.length e3 = Z.to_nat (k p * d p * 32)) by apply Henc.
  assert (Htr : List.length (keygen_tr p seed) = 32%nat)
    by (unfold keygen_tr; apply shake256_length).
  split.
  - rewrite subspan_app_mid;
      [reflexivity | now rewrite keygen_rho_length | now rewrite keygen_key_length].
  - unfold sign_prepare. cbv zeta. rewrite squeeze_new2. cbv iota beta.
    fold eta_bw.
    assert (S3 : subspan (0 + 32 + 32 + 32 + l p * eta_bw * 32 + k p * eta_bw * 32)
                   (sec_key_len (k p) (l p) (η p) (d p)
                    - (0 + 32 + 32 + 32 + l p * eta_bw * 32 + k p * eta_bw * 32))
                   (keygen_rho seed ++ keygen_key seed ++ keygen_tr p seed ++ e1 ++ e2 ++ e3)
                 = e3).
    { replace (keygen_rho seed ++ keygen_key seed ++ keygen_tr p seed ++ e1 ++ e2 ++ e3)
        with ((keygen_rho seed ++ keygen_key seed ++ keygen_tr p seed ++ e1 ++ e2) ++ e3 ++ [])
        by now rewrite app_nil_r, <- !app_assoc.
      apply subspan_app_mid.
      - rewrite !length_app, keygen_rho_length, keygen_key_length, Htr, H1, H2. lia.
      - rewrite H3. f_equal. unfold sec_key_len. cbv zeta. fold eta_bw. lia. }
    rewrite S3. unfold e3, u32. rewrite Z.shiftl_1_l.
    destruct randomized; [|rewrite squeeze_after_reset]; reflexivity.
Qed.

End SignerCompositions.

(** ** These statements at the small instances *)

Lemma chunks_length {A : Type} (count w : nat) (xs : list A) :
  List.length (chunks count w xs) = count.
Proof.
  revert xs. induction count as [|count IH]; intros xs; simpl; [reflexivity|].
  now rewrite IH.
Qed.

Lemma pack_bits_length (n bw : Z) (v : list zq_t) :
  List.length (pack_bits n bw v) = Z.to_nat (n * bw * 32).
Proof. unfold pack_bits. now rewrite length_map, chunks_length. Qed.

Lemma sign_returns_first_good_candidate_witness :
  let P := small_primitives 0 0 in
  let seckey := repeat 0 2528 in
  let cx := fst (sign_prepare dilithium2 false seckey [] []) in
  check_signing_params dilithium2 = true /\
  exists sig, sign dilithium2 false 2 seckey [] [] = Some sig /\
  exists n : nat, (n < 2)%nat /\
    candidate_ok dilithium2 (candidate_at dilithium2 cx ((Z.of_nat n * 4) mod 2 ^ 16)) /\
    sig = cd_hash_out (candidate_at dilithium2 cx ((Z.of_nat n * 4) mod 2 ^ 16))
          ++ encode 4 18 (sub_from_x 4 (2 ^ 17)
                            (cd_z (candidate_at dilithium2 cx ((Z.of_nat n * 4) mod 2 ^ 16))))
          ++ encode_hint_bits 4 80
               (cd_h (candidate_at dilithium2 cx ((Z.of_nat n * 4) mod 2 ^ 16))).
Proof.
  intros P seckey cx. split; [reflexivity|].
  assert (E : sign dilithium2 false 2 seckey [] [] <> None) by (vm_compute; discriminate).
  destruct (sign dilithium2 false 2 seckey [] []) as [sig|] eqn:Hsig; [|congruence].
  exists sig. split; [reflexivity|].
  destruct (sign_returns_first_good_candidate dilithium2 false 2 seckey [] [] sig
              eq_refl Hsig) as (n & Hn & Hok & _ & Hs).
  exists n. split; [exact Hn|]. split; [exact Hok | exact Hs].
Defined.

Lemma keygen_key_lengths_witness :
  let P := small_primitives 0 1 in
  check_keygen_params dilithium2 = true /\
  Z.of_nat (List.length (fst (keygen dilithium2 tt (repeat 0 32)))) = 1312 /\
  Z.of_nat (List.length (snd (keygen dilithium2 tt (repeat 0 32)))) = 2528.
Proof.
  intros P. split; [reflexivity|].
  apply (@keygen_key_lengths P dilithium2 tt (repeat 0 32));
    [reflexivity | intros n bw v; apply pad_to_length].
Defined.

Lemma sign_signature_length_witness :
  let P := small_primitives 0 0 in
  let seckey := repeat 0 2528 in
  check_signing_params dilithium2 = true /\
  exists sig, sign dilithium2 false 2 seckey [] [] = Some sig /\
              Z.of_nat (List.length sig) = 2420.
Proof.
  intros P seckey. split; [reflexivity|].
  assert (E : sign dilithium2 false 2 seckey [] [] <> None) by (vm_compute; discriminate).
  destruct (sign dilithium2 false 2 seckey [] []) as [sig|] eqn:Hsig; [|congruence].
  exists sig. split; [reflexivity|].
  apply (sign_signature_length dilithium2 false 2 seckey [] [] sig);
    [reflexivity | intros n bw v; apply pad_to_length
     | intros v; apply repeat_length | exact Hsig].
Defined.

Lemma verify_reads_signed_fields_witness :
  let P := small_primitives 0 0 in
  let cx := mk_sign_ctx [] [] [] [] [] [] in
  let st := sign_body dilithium2 cx (sign_init dilithium2 shake256_new) in
  check_signing_params dilithium2 = true /\
  sig_c_tilde (sign_serialize dilithium2 st) = hash_out st.
Proof.
  intros P cx st. split; [reflexivity|].
  apply (verify_reads_signed_fields dilithium2 cx (sign_init dilithium2 shake256_new));
    [reflexivity | intros n bw v; apply pad_to_length | intros v; apply repeat_length].
Defined.

Lemma verify_of_signed_is_hash_check_witness :
  let P := packing_primitives in
  let cx := mk_sign_ctx [] [] [] [] [] [] in
  let st := sign_body dilithium2 cx (sign_init dilithium2 shake256_new) in
  let sig := sign_serialize dilithium2 st in
  let pubkey := repeat 0 1312 in
  check_signing_params dilithium2 = true /\
  has_signed st = true /\
  sub_from_x 4 (2 ^ 17) (decode 4 18 (encode 4 18 (sub_from_x 4 (2 ^ 17) (z st)))) = z st /\
  decode_hint_bits 4 80 (encode_hint_bits 4 80 (h st)) = (false, h st) /\
  (verify dilithium2 pubkey [] sig = true <->
     shake256 (verify_mu pubkey []
               ++ encode 4 (w1_bw dilithium2)
                    (vw_w1 (verify_compute dilithium2 pubkey [] sig))) 32
     = hash_out st).
Proof.
  intros P cx st sig pubkey.
  assert (Rz : sub_from_x 4 (2 ^ 17)
                 (decode 4 18 (encode 4 18 (sub_from_x 4 (2 ^ 17) (z st)))) = z st)
    by (vm_compute; reflexivity).
  assert (Rh : decode_hint_bits 4 80 (encode_hint_bits 4 80 (h st)) = (false, h st))
    by (vm_compute; reflexivity).
  split; [reflexivity|]. split; [reflexivity|]. split; [exact Rz|]. split; [exact Rh|].
  apply (verify_of_signed_is_hash_check dilithium2 cx (sign_init dilithium2 shake256_new)
           pubkey []);
    [reflexivity | reflexivity | apply pack_bits_length | apply repeat_length
     | exact Rz | exact Rh].
Defined.

Lemma sign_rho_prime_by_mode_witness :
  let P := small_primitives 0 0 in
  let a := repeat 0 32 in
  let K := repeat 1 32 in
  let K' := repeat 2 32 in
  let b := repeat 0 2464 in
  let seed := repeat 5 64 in
  check_signing_params dilithium2 = true /\
  cx_rho_prime (fst (sign_prepare dilithium2 true (a ++ K ++ b) [] seed)) = seed /\
  sign dilithium2 true 2 (a ++ K ++ b) [] seed = sign dilithium2 true 2 (a ++ K' ++ b) [] seed.
Proof.
  intros P a K K' b seed. split; [reflexivity|].
  destruct (sign_rho_prime_by_mode dilithium2 2 a K K' b [] seed
              eq_refl eq_refl eq_refl eq_refl) as (H1 & H2 & _).
  split; [exact H1 | exact H2].
Defined.

Lemma sign_reads_unmasked_t0_witness :
  let P := small_primitives 0 1 in
  let seed := repeat 0 32 in
  let sk := snd (keygen dilithium2 tt seed) in
  check_keygen_params dilithium2 = true /\
  subspan 32 32 sk = skipn 96 (shake256 seed 128) /\
  cx_t0 (fst (sign_prepare dilithium2 false sk [] []))
  = polyvec_ntt 4
      (sub_from_x 4 (2 ^ 12 mod 2 ^ 32)
         (decode 4 13
            (encode 4 13 (sub_from_x 4 (2 ^ 12 mod 2 ^ 32) (keygen_t0 dilithium2 seed))))).
Proof.
  intros P seed sk. split; [reflexivity|].
  apply (@sign_reads_unmasked_t0 P dilithium2 tt false seed [] []);
    [reflexivity | intros n bw v; apply pad_to_length].
Defined.

Lemma keygen_sign_verify_up_to_w1_witness :
  let P := packing_primitives in
  let seed := repeat 0 32 in
  let pk := fst (keygen dilithium2 tt seed) in
  let sk := snd (keygen dilithium2 tt seed) in
  let cx := fst (sign_prepare dilithium2 false sk [] []) in
  let st0 := sign_init dilithium2 shake256_new in
  let st := sign_body dilithium2 cx st0 in
  let sig := sign_serialize dilithium2 st in
  check_signing_params dilithium2 = true /\
  has_signed st = true /\
  sign dilithium2 false 1 sk [] [] = Some sig /\
  verify dilithium2 pk [] sig = true.
Proof.
  intros P seed pk sk cx st0 st sig.
  split; [reflexivity|]. split; [reflexivity|]. split; [vm_compute; reflexivity|].
  apply (@keygen_sign_verify_up_to_w1 P dilithium2 tt false seed [] [] st0);
    [reflexivity | reflexivity | apply pack_bits_length | apply repeat_length
     | vm_compute; reflexivity | vm_compute; reflexivity | vm_compute; reflexivity].
Defined.
